(** * update-employees: clean, validate, batch, upsert, weekly summary

    A shallow embedding of [scripts/update-employees.ts].

    Conventions of the embedding.
    - A JS string is a [string]: a sequence of 8-bit code units, read as the
      code points U+0000..U+00FF.  [trim] strips the members of WhiteSpace and
      LineTerminator in that range, [toLowerCase] lowers the letters of it.
    - Numbers are read twice.  In the run as a whole ([main], the store,
      the counts, the sums of the summary) a finite JS number is an exact
      rational [Q]: arithmetic is exact, and where the source can meet NaN
      or an infinity (the result of [Number(...)]) the value is an
      [option Q], [None] standing for every non-finite number.  In the
      module [IEEE] a number is an IEEE 754 double, with its rounding, its
      overflow, its two zeros, its infinities and NaN; [toBool], [toFloat2],
      [clean], [validate] and [weeklySummary] are embedded there once more,
      on rows of the declared type [Row].  What depends on the rounding of
      doubles (the two decimals of [hoursWorked], the bounds on the hours,
      the status of an entry at the threshold) is stated and proved there.
    - Array indices, lengths and the batch size are integers [Z]: [main] is
      embedded for an integer [BATCH_SIZE].  A second batcher,
      [toBatches_num], takes its size and its index as JS numbers (NaN, the
      infinities, fractions, the index added up exactly) and agrees with the
      first on integers.
    - [undefined] is [None] of an [option]; where a field is [string | null]
      and never undefined, [None] is [null] (said at the field).
    - The conversions of the runtime between strings and numbers
      ([Number(s)] and [n.toString()]) are parameters of the development.
    - A loop that may run for ever takes a [fuel] and answers [None] when the
      fuel runs out before the loop exits.
    - The store is not part of the script: its rows and its upsert follow the
      store contract of the specification.

    [main] is embedded from the parsed array on.  [profile] is embedded on
    arrays of objects, and the text of the summary file as [csv].  The
    loader, the files and the console lines the run writes, the timeout of a
    transaction and the release of the connection are left out. *)

From Stdlib Require Import List String Ascii Bool Arith ZArith QArith Qround Lia Lqa.
From Stdlib Require Import SpecFloat.
Import ListNotations.

Local Open Scope string_scope.

#[local] Set Default Proof Using "Type".

(** ** Strings *)

(** WhiteSpace and LineTerminator code points below U+0100: TAB, LF, VT, FF,
    CR, SP and NBSP. *)
Definition isWhiteSpace (c : ascii) : bool :=
  let n := nat_of_ascii c in
  ((n =? 9) || (n =? 10) || (n =? 11) || (n =? 12) || (n =? 13)
   || (n =? 32) || (n =? 160))%nat.

Fixpoint trimStart (s : string) : string :=
  match s with
  | EmptyString => EmptyString
  | String c s' => if isWhiteSpace c then trimStart s' else s
  end.

Fixpoint trimEnd (s : string) : string :=
  match s with
  | EmptyString => EmptyString
  | String c s' =>
      match trimEnd s' with
      | EmptyString => if isWhiteSpace c then EmptyString else String c EmptyString
      | t => String c t
      end
  end.

(** [String.prototype.trim] *)
Definition trim (s : string) : string := trimEnd (trimStart s).

(** Lower case of one code unit: A-Z, and U+00C0..U+00DE but the
    multiplication sign U+00D7. *)
Definition lowerChar (c : ascii) : ascii :=
  let n := nat_of_ascii c in
  if (((65 <=? n) && (n <=? 90))
      || ((192 <=? n) && (n <=? 222) && negb (n =? 215)))%nat
  then ascii_of_nat (n + 32) else c.

(** [String.prototype.toLowerCase] *)
Fixpoint toLowerCase (s : string) : string :=
  match s with
  | EmptyString => EmptyString
  | String c s' => String (lowerChar c) (toLowerCase s')
  end.

(** [Array.prototype.join] on an array of strings. *)
Fixpoint join (sep : string) (l : list string) : string :=
  match l with
  | [] => ""
  | [x] => x
  | x :: rest => x ++ sep ++ join sep rest
  end.

(** [Array.prototype.includes] on an array of strings. *)
Definition includes (l : list string) (s : string) : bool :=
  existsb (String.eqb s) l.

(** First and last code unit of a string, when it has one. *)
Definition firstChar (s : string) : option ascii :=
  match s with EmptyString => None | String c _ => Some c end.

Fixpoint lastChar (s : string) : option ascii :=
  match s with
  | EmptyString => None
  | String c EmptyString => Some c
  | String _ s' => lastChar s'
  end.

(** A string with no white space at either end: a fixed point of [trim]. *)
Definition isTrimmed (s : string) : bool :=
  match firstChar s, lastChar s with
  | Some a, Some b => negb (isWhiteSpace a) && negb (isWhiteSpace b)
  | _, _ => true
  end.

(** ** JS values *)

(** The scalar values [JSON.parse] can put in a field, and [undefined] for a
    field that is not there.  The declared type [Row] allows a part of them
    in each field. *)
Inductive JsValue : Type :=
| JsUndefined
| JsNull
| JsBoolean (b : bool)
| JsNumber (n : Q)
| JsString (s : string).

(** type Row *)
Record Row : Type := mkRow {
  raw_email : JsValue;
  raw_employeeNum : JsValue;
  raw_firstName : JsValue;
  raw_lastName : JsValue;
  raw_department : JsValue;
  raw_role : JsValue;
  raw_hoursWorked : JsValue;
  raw_active : JsValue
}.

(** The row [{}]. *)
Definition emptyRow : Row :=
  mkRow JsUndefined JsUndefined JsUndefined JsUndefined
        JsUndefined JsUndefined JsUndefined JsUndefined.

(** Truthiness of a [string | undefined]: undefined and the empty string are
    falsy. *)
Definition truthy (o : option string) : bool :=
  match o with
  | Some s => negb (s =? "")
  | None => false
  end.

(** [Math.round]: the nearest integer, a half going up. *)
Definition Math_round (x : Q) : Q := inject_Z (Qfloor (x + (1 # 2))).

(** [ReturnType<typeof clean>].  [department] is [string | null]: its [None]
    is null.  The other options are [string | undefined]. *)
Record Cleaned : Type := mkCleaned {
  email : option string;
  employeeNum : option string;
  firstName : option string;
  lastName : option string;
  department : option string;
  role : string;
  hoursWorked : Q;
  active : bool
}.

(** ** An instance of the runtime conversions, for plain decimal numerals

    The development below is parametric in [Number(s)] and [n.toString()].
    These two functions give them on the numerals the examples use: an
    optional sign, digits, and an optional fraction part.  They are no model
    of the runtime on other texts and numbers: an exponent or a hexadecimal
    literal is read as NaN here, and a fraction is printed to twenty digits
    at most. *)

Definition digitOf (c : ascii) : option Z :=
  let n := nat_of_ascii c in
  if ((48 <=? n) && (n <=? 57))%nat then Some (Z.of_nat (n - 48)) else None.

(** The value of a run of decimal digits read after [acc]; [None] when a
    code unit is not a digit. *)
Fixpoint digitsValue (s : string) (acc : Z) : option Z :=
  match s with
  | EmptyString => Some acc
  | String c s' =>
      match digitOf c with
      | Some d => digitsValue s' (10 * acc + d)
      | None => None
      end
  end.

(** The text before the first dot, and the text after it when there is one. *)
Fixpoint splitDot (s : string) : string * option string :=
  match s with
  | EmptyString => (EmptyString, None)
  | String c s' =>
      if (c =? ".")%char then (EmptyString, Some s')
      else let '(a, b) := splitDot s' in (String c a, b)
  end.

Definition decimalStringToNumber (s : string) : option Q :=
  let t := trim s in
  if t =? "" then Some 0%Q
  else
    let '(neg, body) :=
      match t with
      | String "-" r => (true, r)
      | String "+" r => (false, r)
      | _ => (false, t)
      end in
    let '(ip, fp) := splitDot body in
    let fp := match fp with Some f => f | None => "" end in
    if (ip =? "") && (fp =? "") then None
    else
      match digitsValue ip 0, digitsValue fp 0 with
      | Some a, Some b =>
          let q := (inject_Z a + inject_Z b / inject_Z (10 ^ Z.of_nat (String.length fp)))%Q in
          Some (if neg then (- q)%Q else q)
      | _, _ => None
      end.

Definition digitChar (d : Z) : ascii := ascii_of_nat (48 + Z.to_nat d).

(** The decimal digits of a natural number, most significant first. *)
Fixpoint digitsOf (fuel : nat) (n : Z) (acc : string) : string :=
  match fuel with
  | O => acc
  | S fuel' =>
      let acc := String (digitChar (n mod 10)) acc in
      if (n / 10 =? 0)%Z then acc else digitsOf fuel' (n / 10) acc
  end.

(** The digits of the fraction [r / d], at most [fuel] of them. *)
Fixpoint fractionDigits (fuel : nat) (r d : Z) : string :=
  match fuel with
  | O => EmptyString
  | S fuel' =>
      if (r =? 0)%Z then EmptyString
      else String (digitChar (10 * r / d)) (fractionDigits fuel' ((10 * r) mod d) d)
  end.

Definition decimalNumberToString (q : Q) : string :=
  let n := Z.abs (Qnum q) in
  let d := Zpos (Qden q) in
  let int := digitsOf (S (Z.to_nat (Z.log2 n))) (n / d) EmptyString in
  let frac := fractionDigits 20 (n mod d) d in
  let body := if frac =? "" then int else int ++ "." ++ frac in
  if (Qnum q <? 0)%Z then "-" ++ body else body.

(** ** Sample inputs *)

(** A row with both names and the given identity and hours. *)
Definition person (email employeeNum hours : JsValue) : Row :=
  mkRow email employeeNum (JsString "A") (JsString "B")
        JsUndefined JsUndefined hours JsUndefined.

(** Three employees: two shifts of 20 hours, 20 and 19.99 hours, and no
    hours at all; and a last row with no key. *)
Definition sampleWeek : list Row :=
  [ person (JsString "a@x.com") JsUndefined (JsNumber 20);
    person (JsString "b@x.com") JsUndefined (JsString "20");
    person (JsString "A@x.com ") JsUndefined (JsNumber 20);
    person JsUndefined (JsString "7") JsUndefined;
    person (JsString "b@x.com") JsUndefined (JsNumber 19.99);
    person JsUndefined JsUndefined (JsNumber 10) ].

(** One employee, with both keys. *)
Definition week0 : list Row :=
  [ person (JsString "a@x.com") (JsString "1") (JsNumber 8) ].

(** A record keyed on the employee number 1, then a record that gives the
    employee of email a@x.com the number 2. *)
Definition week1 : list Row :=
  [ person JsUndefined (JsString "1") (JsNumber 8);
    person (JsString "a@x.com") (JsString "2") (JsNumber 8) ].

(** Three records with an email, two of them of one employee. *)
Definition emailWeek : list Row :=
  [ person (JsString "a@x.com") (JsString "1") (JsNumber 8);
    person (JsString "b@x.com") (JsString "2") (JsNumber 6);
    person (JsString "a@x.com") JsUndefined (JsNumber 4) ].

(** A record whose email is blank, keyed on the employee number 1. *)
Definition week7 : list Row :=
  [ person (JsString " ") (JsString "1") (JsNumber 8) ].

(** Two employees whose employee number is blank. *)
Definition blankNumberWeek : list Row :=
  [ person (JsString "a@x.com") (JsString " ") (JsNumber 8);
    person (JsString "b@x.com") (JsString " ") (JsNumber 8) ].


(** ** Numbers as doubles

    The value of [hoursWorked] and the status of an entry at its boundary
    depend on the rounding of IEEE 754 binary64.  The module [IEEE] embeds
    [toBool], [toFloat2], [clean], [validate] and [weeklySummary] once more,
    on rows of the declared type [Row], with every number a double: a
    [spec_float] of the standard library with a precision of 53 bits and
    the exponent bound 1024, its operations rounding to nearest, ties to
    even.  [Number(s)] stays a parameter. *)
Module IEEE.

Definition double : Type := spec_float.

Definition mul (x y : double) : double := SFmul 53 1024 x y.
Definition div (x y : double) : double := SFdiv 53 1024 x y.
Definition add (x y : double) : double := SFadd 53 1024 x y.
Definition sub (x y : double) : double := SFsub 53 1024 x y.

(** The double of an integer, exact below 2^53. *)
Definition ofZ (z : Z) : double := binary_normalize 53 1024 z 0 false.

(** The double nearest to [n / d], for integers below 2^53: what a decimal
    literal denotes. *)
Definition ofFraction (n d : Z) : double := div (ofZ n) (ofZ d).

(** [Number.isFinite(n)] *)
Definition Number_isFinite (n : double) : bool :=
  match n with
  | S754_zero _ | S754_finite _ _ _ => true
  | S754_infinity _ | S754_nan => false
  end.

(** [Math.round(x)]: the integer nearest to [x], a half going up; the sign
    of [x] is kept when the result is zero.  A double with no fraction bit
    is left as it is. *)
Definition Math_round (x : double) : double :=
  match x with
  | S754_finite s m (Zneg p) =>
      let d := Z.pow_pos 2 p in
      let n := cond_Zopp s (Zpos m) in
      let k := ((2 * n + d) / (2 * d))%Z in
      if (k =? 0)%Z then S754_zero s else binary_normalize 53 1024 k 0 s
  | _ => x
  end.

(** The values of a field of type [string], or [string | null], that may be
    absent. *)
Inductive JsText : Type :=
| TextUndefined
| TextNull
| Text (s : string).

(** [number | string | null], or absent. *)
Inductive JsHours : Type :=
| HoursUndefined
| HoursNull
| HoursNumber (n : double)
| HoursString (s : string).

(** [boolean | string | null], or absent. *)
Inductive JsActive : Type :=
| ActiveUndefined
| ActiveNull
| ActiveBoolean (b : bool)
| ActiveString (s : string).

(** type Row *)
Record Row : Type := mkRow {
  raw_email : JsText;
  raw_employeeNum : JsText;
  raw_firstName : JsText;
  raw_lastName : JsText;
  raw_department : JsText;
  raw_role : JsText;
  raw_hoursWorked : JsHours;
  raw_active : JsActive
}.

(** [ReturnType<typeof clean>]; the [None] of [department] is null, the
    other ones are undefined. *)
Record Cleaned : Type := mkCleaned {
  email : option string;
  employeeNum : option string;
  firstName : option string;
  lastName : option string;
  department : option string;
  role : string;
  hoursWorked : double;
  active : bool
}.

(** [x || d] for [x : string | undefined], and [x ?? d]. *)
Definition orElse {A : Type} (x : option string) (some : string -> A) (d : A) : A :=
  match x with
  | Some s => if s =? "" then d else some s
  | None => d
  end.

Definition nullish {A : Type} (x : option A) (d : A) : A :=
  match x with
  | Some a => a
  | None => d
  end.

Inductive Status : Type := PASS | WARN | FAIL.

Record WeeklyEntry : Type := mkEntry {
  key : option string;
  total_hours : double;
  expected_hours : double;
  delta : double;
  status : Status
}.

(** [Map<string, number>], its entries in the order of first insertion; a
    key is undefined ([None]) when [r.email || r.employeeNum!] is. *)
Definition JsMap : Type := list (option string * double).

Definition key_eqb (a b : option string) : bool :=
  match a, b with
  | Some x, Some y => x =? y
  | None, None => true
  | _, _ => false
  end.

Fixpoint map_get (m : JsMap) (k : option string) : option double :=
  match m with
  | [] => None
  | (k', v) :: m' => if key_eqb k k' then Some v else map_get m' k
  end.

Fixpoint map_set (m : JsMap) (k : option string) (v : double) : JsMap :=
  match m with
  | [] => [(k, v)]
  | (k', v') :: m' => if key_eqb k k' then (k', v) :: m' else (k', v') :: map_set m' k v
  end.

Section Runtime.

(** [Number(s)] for a string [s]. *)
Variable StringToNumber : string -> double.

(** [v?.toString()] *)
Definition optToString (v : JsText) : option string :=
  match v with
  | Text s => Some s
  | TextUndefined | TextNull => None
  end.

Definition toBool (v : JsActive) : option bool :=
  match v with
  | ActiveUndefined | ActiveNull => None
  | ActiveBoolean b => Some b
  | ActiveString v =>
      if v =? "" then None
      else
        let s := toLowerCase (trim v) in
        if includes ["true"; "1"; "yes"; "y"] s then Some true
        else if includes ["false"; "0"; "no"; "n"] s then Some false
        else None
  end.

(** [v === null || v === undefined || v === ''] *)
Definition isBlank (v : JsHours) : bool :=
  match v with
  | HoursUndefined | HoursNull => true
  | HoursString s => s =? ""
  | HoursNumber _ => false
  end.

(** [Number(v)] *)
Definition ToNumber (v : JsHours) : double :=
  match v with
  | HoursUndefined => S754_nan
  | HoursNull => S754_zero false
  | HoursNumber n => n
  | HoursString s => StringToNumber s
  end.

Definition toFloat2 (v : JsHours) : option double :=
  if isBlank v then None
  else
    let n := ToNumber v in
    if Number_isFinite n then Some (div (Math_round (mul n (ofZ 100))) (ofZ 100)) (* 2 decimals *)
    else None.

Definition clean (r : Row) : Cleaned :=
  let email := option_map (fun s => toLowerCase (trim s)) (optToString (raw_email r)) in
  let employeeNum := option_map trim (optToString (raw_employeeNum r)) in
  let firstName := option_map trim (optToString (raw_firstName r)) in
  let lastName := option_map trim (optToString (raw_lastName r)) in
  let department := orElse (option_map trim (optToString (raw_department r))) Some None in
  let role := orElse (option_map trim (optToString (raw_role r))) (fun s => s) "Staff" in
  let hoursWorked := nullish (toFloat2 (raw_hoursWorked r)) (S754_zero false) in
  let active := nullish (toBool (raw_active r)) true in
  mkCleaned email employeeNum firstName lastName department role hoursWorked active.

Definition validate (c : Cleaned) : list string :=
  let errs : list string := [] in
  let errs := if negb (truthy (email c)) && negb (truthy (employeeNum c))
              then (errs ++ ["Missing unique key (email or employeeNum)."])%list else errs in
  let errs := if negb (truthy (firstName c)) then (errs ++ ["Missing firstName."])%list else errs in
  let errs := if negb (truthy (lastName c)) then (errs ++ ["Missing lastName."])%list else errs in
  let errs := if SFltb (hoursWorked c) (S754_zero false)
              then (errs ++ ["hoursWorked cannot be negative."])%list else errs in
  let errs := if SFltb (ofZ 24) (hoursWorked c)
              then (errs ++ ["hoursWorked per record > 24 is not allowed."])%list else errs in
  errs.

(** The records the [forEach] of [main] pushes to [cleaned]: those with no
    violation, in the order of the input. *)
Fixpoint accepted (rows : list Row) : list Cleaned :=
  match rows with
  | [] => []
  | r :: rest =>
      let c := clean r in
      if (0 <? List.length (validate c))%nat then accepted rest else c :: accepted rest
  end.

Variable EXPECTED_WEEKLY_HOURS : double.

(** [r.email || r.employeeNum!] *)
Definition identityKey (r : Cleaned) : option string :=
  if truthy (email r) then email r else employeeNum r.

(** The first loop of [weeklySummary]. *)
Definition accumulate (map : JsMap) (r : Cleaned) : JsMap :=
  let key := identityKey r in
  map_set map key (add (nullish (map_get map key) (S754_zero false)) (hoursWorked r)).

Definition totals (rows : list Cleaned) : JsMap := fold_left accumulate rows [].

(** The function mapped over [map.entries()]. *)
Definition entryOf (kv : option string * double) : WeeklyEntry :=
  let '(key, total) := kv in
  let status := PASS in
  let status :=
    if SFeqb total (S754_zero false) then FAIL
    else if SFltb (S754_zero false) total && SFltb total EXPECTED_WEEKLY_HOURS then WARN
    else status in
  mkEntry key
          (div (Math_round (mul total (ofZ 100))) (ofZ 100))
          EXPECTED_WEEKLY_HOURS
          (div (Math_round (mul (sub total EXPECTED_WEEKLY_HOURS) (ofZ 100))) (ofZ 100))
          status.

(** The [entries] of [weeklySummary]. *)
Definition weeklySummary (rows : list Cleaned) : list WeeklyEntry :=
  map entryOf (totals rows).

End Runtime.

(** A cleaned record as a row again: [clean(clean(r))] is well typed. *)
Definition rowOfCleaned (c : Cleaned) : Row :=
  let text (o : option string) :=
    match o with Some s => Text s | None => TextUndefined end in
  mkRow (text (email c)) (text (employeeNum c)) (text (firstName c)) (text (lastName c))
        (match department c with Some s => Text s | None => TextNull end)
        (Text (role c)) (HoursNumber (hoursWorked c)) (ActiveBoolean (active c)).

(** [acc + r.hoursWorked] when the identity key of [r] is [k], and the sum
    of the hours of the records of key [k], added from 0 in the order of
    the input. *)
Definition addHours (k : option string) (acc : double) (r : Cleaned) : double :=
  if key_eqb (identityKey r) k then add acc (hoursWorked r) else acc.

Definition hoursOf (k : option string) (rows : list Cleaned) : double :=
  fold_left (addHours k) rows (S754_zero false).


(** [Number(s)] on plain decimal numerals of at most fifteen digits: an
    optional sign, digits, and an optional fraction part.  Any other text
    is read as NaN here. *)
Definition plainNumber (s : string) : double :=
  let t := trim s in
  if t =? "" then S754_zero false
  else
    let '(neg, body) :=
      match t with
      | String "-" r => (true, r)
      | String "+" r => (false, r)
      | _ => (false, t)
      end in
    let '(ip, fp) := splitDot body in
    let fp := match fp with Some f => f | None => "" end in
    if (ip =? "") && (fp =? "") then S754_nan
    else
      match digitsValue ip 0, digitsValue fp 0 with
      | Some a, Some b =>
          let d := (10 ^ Z.of_nat (String.length fp))%Z in
          let x := ofFraction (a * d + b) d in
          if neg then SFopp x else x
      | _, _ => S754_nan
      end.

(** A row with both names, the email and the hours given. *)
Definition person (email : string) (hours : JsHours) : Row :=
  mkRow (Text email) TextUndefined (Text "A") (Text "B")
        TextUndefined TextUndefined hours ActiveUndefined.

(** A field that is null or undefined, or whose text is empty once trimmed. *)
Definition absentOrEmpty (v : JsText) : Prop :=
  match optToString v with
  | Some t => trim t = ""
  | None => True
  end.

(** A row whose every field needs cleaning. *)
Definition untidy : Row :=
  mkRow (Text " A@X.com ") (Text " 7 ") (Text " Ann ") (Text "Lee")
        (Text "  ") TextUndefined (HoursString " 7.456 ") (ActiveString " YES ").



(** 1e308, the double [5010420900022432 * 2^971]. *)
Definition d1e308 : double := S754_finite false 5010420900022432 971.

(** A number of the sign [s], zero or infinite or not: any number but NaN. *)
Definition signed (s : bool) (x : double) : Prop :=
  match x with
  | S754_zero t | S754_infinity t | S754_finite t _ _ => t = s
  | S754_nan => False
  end.

(** The same double, bit for bit. *)
Definition same (x y : double) : bool :=
  match x, y with
  | S754_zero s, S754_zero t | S754_infinity s, S754_infinity t => Bool.eqb s t
  | S754_nan, S754_nan => true
  | S754_finite s m e, S754_finite t n f => Bool.eqb s t && (m =? n)%positive && (e =? f)%Z
  | _, _ => false
  end.

(** The whole numbers from -2500 to 2500: the hundredths from -25 to 25
    hours, which hold the two bounds of [validate]. *)
Definition hundredths : list Z := map (fun i => (Z.of_nat i - 2500)%Z) (seq 0 (Z.to_nat 5001)).

(** [toFloat2] leaves [k / 100] as it is, and the two bounds of [validate]
    tell its sign and whether it is over 24. *)
Definition hoursCheck (k : Z) : bool :=
  let h := ofFraction k 100 in
  match toFloat2 plainNumber (HoursNumber h) with
  | Some h' =>
      same h' h
      && Bool.eqb (SFltb h' (S754_zero false)) (k <? 0)%Z
      && Bool.eqb (SFltb (ofZ 24) h') (2400 <? k)%Z
  | None => false
  end.

End IEEE.

Section Runtime.

(** [Number(s)] for a string [s]; [None] is NaN or an infinity. *)
Variable StringToNumber : string -> option Q.
(** [n.toString()] and [String(n)] for a number [n]. *)
Variable NumberToString : Q -> string.

(** [v?.toString()]: undefined when [v] is null or undefined. *)
Definition optToString (v : JsValue) : option string :=
  match v with
  | JsUndefined | JsNull => None
  | JsBoolean b => Some (if b then "true" else "false")
  | JsNumber n => Some (NumberToString n)
  | JsString s => Some s
  end.

(** [String(v)] *)
Definition ToString (v : JsValue) : string :=
  match v with
  | JsUndefined => "undefined"
  | JsNull => "null"
  | JsBoolean b => if b then "true" else "false"
  | JsNumber n => NumberToString n
  | JsString s => s
  end.

(** [Number(v)]; [None] is NaN or an infinity, so that
    [Number.isFinite(Number(v))] is [Some _]. *)
Definition ToNumber (v : JsValue) : option Q :=
  match v with
  | JsUndefined => None
  | JsNull => Some 0%Q
  | JsBoolean b => Some (if b then 1%Q else 0%Q)
  | JsNumber n => Some n
  | JsString s => StringToNumber s
  end.

(** [v === null || v === undefined || v === ''] *)
Definition isBlank (v : JsValue) : bool :=
  match v with
  | JsUndefined | JsNull => true
  | JsString s => s =? ""
  | _ => false
  end.

Definition toBool (v : JsValue) : option bool :=
  if isBlank v then None
  else match v with
       | JsBoolean b => Some b
       | _ =>
           let s := toLowerCase (trim (ToString v)) in
           if includes ["true"; "1"; "yes"; "y"] s then Some true
           else if includes ["false"; "0"; "no"; "n"] s then Some false
           else None
       end.

Definition toFloat2 (v : JsValue) : option Q :=
  if isBlank v then None
  else match ToNumber v with
       | Some n => Some (Math_round (n * 100) / 100)%Q
       | None => None
       end.

(** [x || d] for [x : string | undefined]. *)
Definition orElse {A : Type} (x : option string) (some : string -> A) (d : A) : A :=
  match x with
  | Some s => if s =? "" then d else some s
  | None => d
  end.

(** [x ?? d] *)
Definition nullish {A : Type} (x : option A) (d : A) : A :=
  match x with
  | Some a => a
  | None => d
  end.

Definition clean (r : Row) : Cleaned :=
  let email := option_map (fun s => toLowerCase (trim s)) (optToString (raw_email r)) in
  let employeeNum := option_map trim (optToString (raw_employeeNum r)) in
  let firstName := option_map trim (optToString (raw_firstName r)) in
  let lastName := option_map trim (optToString (raw_lastName r)) in
  let department := orElse (option_map trim (optToString (raw_department r))) Some None in
  let role := orElse (option_map trim (optToString (raw_role r))) (fun s => s) "Staff" in
  let hoursWorked := nullish (toFloat2 (raw_hoursWorked r)) 0%Q in
  let active := nullish (toBool (raw_active r)) true in
  mkCleaned email employeeNum firstName lastName department role hoursWorked active.

(** [a < b] on numbers *)
Definition ltb (a b : Q) : bool := if Qlt_le_dec a b then true else false.

Definition validate (c : Cleaned) : list string :=
  let errs : list string := [] in
  let errs := if negb (truthy (email c)) && negb (truthy (employeeNum c))
              then (errs ++ ["Missing unique key (email or employeeNum)."])%list else errs in
  let errs := if negb (truthy (firstName c)) then (errs ++ ["Missing firstName."])%list else errs in
  let errs := if negb (truthy (lastName c)) then (errs ++ ["Missing lastName."])%list else errs in
  let errs := if ltb (hoursWorked c) 0 then (errs ++ ["hoursWorked cannot be negative."])%list else errs in
  let errs := if ltb 24 (hoursWorked c)
              then (errs ++ ["hoursWorked per record > 24 is not allowed."])%list else errs in
  errs.

(** ** Batching *)

Section Batches.

Context {T : Type}.

(** [arr.slice(start, end)] for integers [start] and [end]: a negative index
    counts from the end of the array, and both are clamped to the array. *)
Definition slice (arr : list T) (start stop : Z) : list T :=
  let len := Z.of_nat (List.length arr) in
  let k := if (start <? 0)%Z then Z.max (len + start) 0 else Z.min start len in
  let final := if (stop <? 0)%Z then Z.max (len + stop) 0 else Z.min stop len in
  firstn (Z.to_nat (final - k)) (skipn (Z.to_nat k) arr).

(** The state of the loop of [toBatches]: the index [i] and the array [out]. *)
Definition LoopState : Type := (Z * list (list T))%type.

(** The test [i < arr.length]. *)
Definition loopTest (arr : list T) (st : LoopState) : bool :=
  (fst st <? Z.of_nat (List.length arr))%Z.

(** One iteration: [out.push(arr.slice(i, i + size))], then [i += size]. *)
Definition loopStep (arr : list T) (size : Z) (st : LoopState) : LoopState :=
  let '(i, out) := st in
  ((i + size)%Z, (out ++ [slice arr i (i + size)%Z])%list).

(** The loop from the state [st].  One unit of fuel pays for one iteration;
    [None]: the fuel ran out while the test still held. *)
Fixpoint toBatches_loop (fuel : nat) (arr : list T) (size : Z) (st : LoopState)
  : option (list (list T)) :=
  if loopTest arr st then
    match fuel with
    | O => None
    | S fuel' => toBatches_loop fuel' arr size (loopStep arr size st)
    end
  else Some (snd st).

Definition toBatches (fuel : nat) (arr : list T) (size : Z) : option (list (list T)) :=
  toBatches_loop fuel arr size (0%Z, []).

(** The state after [n] iterations, when none of them was stopped by the test. *)
Fixpoint loopState (arr : list T) (size : Z) (n : nat) : LoopState :=
  match n with
  | O => (0%Z, [])
  | S n' => loopStep arr size (loopState arr size n')
  end.

(** Every batch but the last has [size] elements, and the last has at least
    one and at most [size]. *)
Fixpoint fullButLast (size : Z) (batches : list (list T)) : Prop :=
  match batches with
  | [] => True
  | [b] => (1 <= Z.of_nat (List.length b) <= size)%Z
  | b :: rest => Z.of_nat (List.length b) = size /\ fullButLast size rest
  end.

End Batches.

(** [Number(process.env.X || dflt)]: the variable when it is set and not
    empty, the default otherwise; no check follows the conversion. *)
Definition envNumber (env : option string) (dflt : Q) : option Q :=
  match env with
  | Some s => if s =? "" then Some dflt else StringToNumber s
  | None => Some dflt
  end.

Definition BATCH_SIZE_of (env : option string) : option Q := envNumber env 100.
Definition EXPECTED_WEEKLY_HOURS_of (env : option string) : option Q := envNumber env 40.

(** The two constants as the run reads them: the batch size when it is an
    integer, and the expected weekly hours when finite.  What the batcher
    does at a size that is no integer is [toBatches_num]. *)
Variable BATCH_SIZE : Z.
Variable EXPECTED_WEEKLY_HOURS : Q.

(** ** Weekly summary *)

(** A key of the [Map]: the source types it [string], and
    [r.email || r.employeeNum!] is undefined ([None]) when both are. *)
Definition Key : Type := option string.

Definition key_eqb (a b : Key) : bool :=
  match a, b with
  | Some x, Some y => x =? y
  | None, None => true
  | _, _ => false
  end.

(** [Map<string, number>], its entries in the order of first insertion. *)
Definition JsMap : Type := list (Key * Q).

Fixpoint map_get (m : JsMap) (k : Key) : option Q :=
  match m with
  | [] => None
  | (k', v) :: m' => if key_eqb k k' then Some v else map_get m' k
  end.

Fixpoint map_set (m : JsMap) (k : Key) (v : Q) : JsMap :=
  match m with
  | [] => [(k, v)]
  | (k', v') :: m' => if key_eqb k k' then (k', v) :: m' else (k', v') :: map_set m' k v
  end.

(** [r.email || r.employeeNum!] *)
Definition identityKey (r : Cleaned) : Key :=
  if truthy (email r) then email r else employeeNum r.

Inductive Status : Type := PASS | WARN | FAIL.

Definition Status_eqb (a b : Status) : bool :=
  match a, b with
  | PASS, PASS | WARN, WARN | FAIL, FAIL => true
  | _, _ => false
  end.

Record WeeklyEntry : Type := mkEntry {
  key : Key;
  total_hours : Q;
  expected_hours : Q;
  delta : Q;
  status : Status
}.

(** The first loop of [weeklySummary]: the totals per key. *)
Definition accumulate (map : JsMap) (r : Cleaned) : JsMap :=
  let key := identityKey r in
  map_set map key (nullish (map_get map key) 0 + hoursWorked r)%Q.

Definition totals (rows : list Cleaned) : JsMap := fold_left accumulate rows [].

(** The function mapped over [map.entries()]. *)
Definition entryOf (kv : Key * Q) : WeeklyEntry :=
  let '(key, total) := kv in
  let status := PASS in
  let status :=
    if Qeq_bool total 0 then FAIL
    else if ltb 0 total && ltb total EXPECTED_WEEKLY_HOURS then WARN
    else status in
  mkEntry key
          (Math_round (total * 100) / 100)%Q
          EXPECTED_WEEKLY_HOURS
          (Math_round ((total - EXPECTED_WEEKLY_HOURS) * 100) / 100)%Q
          status.

(** The [entries] that [weeklySummary] returns.  The text of the CSV file it
    writes is [csv] below; the path of that file, which holds the time of
    the run, and the write itself are effects the embedding leaves out. *)
Definition weeklySummary (rows : list Cleaned) : list WeeklyEntry :=
  map entryOf (totals rows).

(** ** The store *)

(** Modelled from the spec: the StoredEmployee entity of the store, whose
    schema is not among the sources.  Its fields are those of the store
    contract; [e_employeeNum] and [e_department] are nullable ([None] is
    null), as the [create] objects of the source give them. *)
Record Employee : Type := mkEmployee {
  e_email : string;
  e_employeeNum : option string;
  e_firstName : string;
  e_lastName : string;
  e_department : option string;
  e_role : string;
  e_hoursWorked : Q;
  e_active : bool
}.

(** The rows of the table, oldest first. *)
Definition Store : Type := list Employee.

(** The [where] of an upsert: one of the two unique keys. *)
Inductive Where : Type :=
| ByEmail (e : string)
| ByEmployeeNum (n : string).

(** The [update] object.  In [u_employeeNum] and [u_email], [None] is
    undefined: the column keeps its value. *)
Record UpdateData : Type := mkUpdate {
  u_firstName : string;
  u_lastName : string;
  u_department : option string;
  u_role : string;
  u_hoursWorked : Q;
  u_active : bool;
  u_employeeNum : option string;
  u_email : option string
}.

(** The argument of [prisma.employee.upsert]. *)
Record UpsertArgs : Type := mkUpsert {
  where_ : Where;
  update : UpdateData;
  create : Employee
}.

(** Modelled from the spec: the rows a unique key selects. *)
Definition selects (w : Where) (e : Employee) : bool :=
  match w with
  | ByEmail s => e_email e =? s
  | ByEmployeeNum s =>
      match e_employeeNum e with
      | Some n => n =? s
      | None => false
      end
  end.

(** Modelled from the spec: two rows that cannot both be in the table, having
    the same email or the same employee number (null is no key). *)
Definition clash (a b : Employee) : bool :=
  (e_email a =? e_email b)
  || match e_employeeNum a, e_employeeNum b with
     | Some x, Some y => x =? y
     | _, _ => false
     end.

(** Modelled from the spec: a row after an update.  A column whose field
    of the update is undefined keeps its value. *)
Definition applyUpdate (u : UpdateData) (e : Employee) : Employee :=
  mkEmployee (nullish (u_email u) (e_email e))
             (match u_employeeNum u with Some n => Some n | None => e_employeeNum e end)
             (u_firstName u) (u_lastName u) (u_department u) (u_role u)
             (u_hoursWorked u) (u_active u).

(** Modelled from the spec: the rows before the first row [w] selects, that
    row, and the rows after. *)
Fixpoint findRow (w : Where) (db : Store) : option (Store * Employee * Store) :=
  match db with
  | [] => None
  | e :: rest =>
      if selects w e then Some ([], e, rest)
      else match findRow w rest with
           | Some (before, x, after) => Some (e :: before, x, after)
           | None => None
           end
  end.

(** Modelled from the spec: the upsert of the store contract, by one unique
    key, with [email] and [employeeNum] each unique.  The row the key selects
    is updated in place; with no such row, the [create] row is added.  [None]:
    the store refuses the write, which would give two rows one key. *)
Definition store_upsert (db : Store) (a : UpsertArgs) : option Store :=
  match findRow (where_ a) db with
  | Some (before, e, after) =>
      let e' := applyUpdate (update a) e in
      if existsb (clash e') (before ++ after)%list then None
      else Some (before ++ e' :: after)%list
  | None =>
      if existsb (clash (create a)) db then None
      else Some (db ++ [create a])%list
  end.

(** Modelled from the spec: a batch as one atomic unit.  The upserts run in
    order; when one is refused, or is no request at all, none is committed. *)
Fixpoint transaction (db : Store) (ops : list (option UpsertArgs)) : option Store :=
  match ops with
  | [] => Some db
  | Some a :: rest =>
      match store_upsert db a with
      | Some db' => transaction db' rest
      | None => None
      end
  | None :: _ => None
  end.

(** ** The upsert stage of [main] *)

(** The function mapped over a batch: the upsert of one record.  A field the
    source asserts with [!] ([firstName], [lastName], and [employeeNum] on
    the second path) gives no request ([None]) when it is undefined; an
    accepted record always gives one. *)
Definition upsertRequest (c : Cleaned) : option UpsertArgs :=
  match firstName c, lastName c with
  | Some fn, Some ln =>
      if truthy (email c) then
        match email c with
        | Some e =>
            Some (mkUpsert
                    (ByEmail e)
                    (mkUpdate fn ln (department c) (role c) (hoursWorked c) (active c)
                              (employeeNum c) None)
                    (mkEmployee e (employeeNum c) fn ln (department c) (role c)
                                (hoursWorked c) (active c)))
        | None => None
        end
      else
        (* fallback to employeeNum path *)
        match employeeNum c with
        | Some n =>
            Some (mkUpsert
                    (ByEmployeeNum n)
                    (mkUpdate fn ln (department c) (role c) (hoursWorked c) (active c)
                              None (email c))
                    (mkEmployee (nullish (email c) (n ++ "@placeholder.local")) (Some n)
                                fn ln (department c) (role c)
                                (hoursWorked c) (active c)))
        | None => None
        end
  | _, _ => None
  end.

(** How the loop over the batches ends: every batch committed, or a
    transaction rejected, which [main] does not catch. *)
Inductive UpsertEnd : Type :=
| Committed (db : Store) (success : nat)
| Thrown (db : Store).

Fixpoint upsertBatches (batches : list (list Cleaned)) (db : Store) (success : nat)
  : UpsertEnd :=
  match batches with
  | [] => Committed db success
  | batch :: rest =>
      match transaction db (map upsertRequest batch) with
      | Some db' => upsertBatches rest db' (success + List.length batch)
      | None => Thrown db
      end
  end.

(** ** [main] *)

(** An element of [errors]. *)
Record Rejection : Type := mkRejection {
  rej_index : nat;
  rej_error : string
}.

(** The [forEach] of steps 2 and 3, from the row of index [i] on, with the
    [cleaned] and [errors] pushed so far. *)
Fixpoint cleanValidate (rows : list Row) (i : nat)
         (cleaned : list Cleaned) (errors : list Rejection)
  : list Cleaned * list Rejection :=
  match rows with
  | [] => (cleaned, errors)
  | r :: rest =>
      let c := clean r in
      let errs := validate c in
      if (0 <? List.length errs)%nat
      then cleanValidate rest (S i) cleaned (errors ++ [mkRejection i (join "; " errs)])%list
      else cleanValidate rest (S i) (cleaned ++ [c])%list errors
  end.

(** [entries.filter(e => e.status === s).length] *)
Definition tally (s : Status) (entries : list WeeklyEntry) : nat :=
  List.length (filter (fun e => Status_eqb (status e) s) entries).

(** What a run that returns leaves behind: the store, the rejections
    written to the rejections file, the counts it logs, and the entries of
    the weekly summary. *)
Record Report : Type := mkReport {
  loaded : nat;
  valid : nat;
  rejections : list Rejection;
  db_after : Store;
  success : nat;
  entries : list WeeklyEntry;
  n_pass : nat;
  n_warn : nat;
  n_fail : nat
}.

(** How [main] ends, from the parsed array on: it returns, or a rejected
    transaction ends it ([Aborted], with the store as the committed batches
    left it), or [toBatches] is still looping when the fuel runs out. *)
Inductive Outcome : Type :=
| Returned (r : Report)
| Aborted (db : Store)
| OutOfFuel.

Definition main (fuel : nat) (dry : bool) (rows : list Row) (db : Store) : Outcome :=
  (* 2) Clean + 3) Validate *)
  let '(cleaned, errors) := cleanValidate rows 0 [] [] in
  (* 5) Weekly summary *)
  let finish (db : Store) (success : nat) : Outcome :=
    let entries := weeklySummary cleaned in
    Returned (mkReport (List.length rows) (List.length cleaned) errors db success entries
                       (tally PASS entries) (tally WARN entries) (tally FAIL entries)) in
  (* 4) Upsert in batches *)
  if negb dry && (0 <? List.length cleaned)%nat then
    match toBatches fuel cleaned BATCH_SIZE with
    | None => OutOfFuel
    | Some batches =>
        match upsertBatches batches db 0 with
        | Committed db' success => finish db' success
        | Thrown db' => Aborted db'
        end
    end
  else finish db 0%nat.

(** The accepted records of an input, in the order of the input. *)
Definition accepted (rows : list Row) : list Cleaned :=
  fst (cleanValidate rows 0 [] []).

(** [acc + r.hoursWorked] when the identity key of [r] is [k]. *)
Definition addHours (k : Key) (acc : Q) (r : Cleaned) : Q :=
  if key_eqb (identityKey r) k then (acc + hoursWorked r)%Q else acc.

(** The sum of [hoursWorked] over the records of [rows] whose identity key
    is [k], added from 0 in the order of the input. *)
Definition hoursOf (k : Key) (rows : list Cleaned) : Q := fold_left (addHours k) rows 0%Q.

(** [errs.length] is zero. *)
Definition noViolation (c : Cleaned) : bool := negb (0 <? List.length (validate c))%nat.

(** A number with at most two decimals. *)
Definition twoDecimals (q : Q) : Prop := exists k : Z, (q == inject_Z k / 100)%Q.

(** The store a run leaves, when the run returns. *)
Definition storeAfter (o : Outcome) : option Store :=
  match o with
  | Returned r => Some (db_after r)
  | _ => None
  end.

(** The store after one run that is not a dry run. *)
Definition runOnce (fuel : nat) (rows : list Row) (db : Store) : option Store :=
  storeAfter (main fuel false rows db).

(** What an upsert does to a row of the store: the update when its key
    selects the row, nothing otherwise. *)
Definition touch (a : UpsertArgs) (r : Employee) : Employee :=
  if selects (where_ a) r then applyUpdate (update a) r else r.

(** A row after a list of upserts, in order. *)
Definition touchAll (ops : list UpsertArgs) (r : Employee) : Employee :=
  fold_left (fun x a => touch a x) ops r.

(** A store in which no two rows share a key. *)
Fixpoint clashFree (db : Store) : Prop :=
  match db with
  | [] => True
  | r :: rest => existsb (clash r) rest = false /\ clashFree rest
  end.

(** Upserts that leave each other's keys alone: no update of the list
    changes whether a key of the list selects a row. *)
Definition stableOps (ops : list UpsertArgs) : Prop :=
  forall a b, In a ops -> In b ops ->
  forall row, selects (where_ a) (applyUpdate (update b) row) = selects (where_ a) row.

(** The same for the upserts of a list of records. *)
Definition stableRecords (cs : list Cleaned) : Prop :=
  forall c1 c2 a1 a2, In c1 cs -> In c2 cs ->
  upsertRequest c1 = Some a1 -> upsertRequest c2 = Some a2 ->
  forall row, selects (where_ a1) (applyUpdate (update a2) row) = selects (where_ a1) row.

(** A field that is null or undefined, or whose text is empty once trimmed. *)
Definition absentOrEmpty (v : JsValue) : Prop :=
  match optToString v with
  | Some t => trim t = ""
  | None => True
  end.

(** ** The profile *)

(** A parsed JSON object with values in [V]: its own properties, in the
    order [Object.keys] lists them. *)
Definition JsObject (V : Type) : Type := list (string * V).

(** [Object.keys(o)] *)
Definition Object_keys {V : Type} (o : JsObject V) : list string := map fst o.

(** [s.add(k)] on a [Set<string>], its elements in the order of insertion. *)
Definition Set_add (s : list string) (k : string) : list string :=
  if includes s k then s else (s ++ [k])%list.

(** What [profile] returns. *)
Record Profile (V : Type) : Type := mkProfile {
  p_rows : nat;
  p_cols : list string;
  p_sample : list (JsObject V)
}.

#[global] Arguments mkProfile {V} _ _ _.
#[global] Arguments p_rows {V} _.
#[global] Arguments p_cols {V} _.
#[global] Arguments p_sample {V} _.

Definition profile {V : Type} (data : list (JsObject V)) : Profile V :=
  let cols := fold_left (fun cols r => fold_left Set_add (Object_keys r) cols) data [] in
  mkProfile (List.length data) cols (slice data 0 5).

(** ** The batcher on every number

    [BATCH_SIZE] is [Number(...)] of a text of the environment: it can be a
    fraction, NaN or an infinity.  The batcher below takes any number as its
    size; its index is a number too. *)

(** A JS number.  A finite number is an exact rational, as in [main]. *)
Inductive JsNum : Type :=
| NaN
| Infinity (negative : bool)
| Finite (q : Q).

(** [a + b] *)
Definition num_add (a b : JsNum) : JsNum :=
  match a, b with
  | NaN, _ | _, NaN => NaN
  | Infinity s, Infinity t => if Bool.eqb s t then Infinity s else NaN
  | Infinity s, Finite _ | Finite _, Infinity s => Infinity s
  | Finite x, Finite y => Finite (x + y)
  end.

(** [a < b] *)
Definition num_ltb (a b : JsNum) : bool :=
  match a, b with
  | NaN, _ | _, NaN => false
  | Infinity true, Infinity true => false
  | Infinity true, _ => true
  | Infinity false, _ => false
  | Finite _, Infinity t => negb t
  | Finite x, Finite y => ltb x y
  end.

(** The result of ToIntegerOrInfinity. *)
Inductive IntOrInf : Type :=
| NegInfinity
| Int (z : Z)
| PosInfinity.

(** ToIntegerOrInfinity: NaN is 0, a finite number loses its fraction
    (towards zero). *)
Definition ToIntegerOrInfinity (n : JsNum) : IntOrInf :=
  match n with
  | NaN => Int 0
  | Infinity true => NegInfinity
  | Infinity false => PosInfinity
  | Finite q => Int (Z.quot (Qnum q) (Zpos (Qden q)))
  end.

(** An index of [slice] relative to an array of [len] elements. *)
Definition relativeIndex (len : Z) (r : IntOrInf) : Z :=
  match r with
  | NegInfinity => 0%Z
  | Int z => if (z <? 0)%Z then Z.max (len + z) 0 else Z.min z len
  | PosInfinity => len
  end.

(** [arr.slice(start, end)] for numbers [start] and [end]. *)
Definition slice_num {T : Type} (arr : list T) (start stop : JsNum) : list T :=
  let len := Z.of_nat (List.length arr) in
  let k := relativeIndex len (ToIntegerOrInfinity start) in
  let final := relativeIndex len (ToIntegerOrInfinity stop) in
  firstn (Z.to_nat (final - k)) (skipn (Z.to_nat k) arr).

(** The loop of [toBatches] from the index [i] with [out], on numbers. *)
Fixpoint toBatches_num_loop {T : Type} (fuel : nat) (arr : list T) (size : JsNum)
         (i : JsNum) (out : list (list T)) : option (list (list T)) :=
  if num_ltb i (Finite (inject_Z (Z.of_nat (List.length arr)))) then
    match fuel with
    | O => None
    | S fuel' =>
        toBatches_num_loop fuel' arr size (num_add i size)
                           (out ++ [slice_num arr i (num_add i size)])%list
    end
  else Some out.

(** [toBatches(arr, size)] for a number [size]. *)
Definition toBatches_num {T : Type} (fuel : nat) (arr : list T) (size : JsNum)
  : option (list (list T)) :=
  toBatches_num_loop fuel arr size (Finite 0) [].

(** ** The CSV of the weekly summary *)

(** The line feed. *)
Definition LF : string := String "010"%char EmptyString.

(** A key in a template literal. *)
Definition keyText (k : Key) : string :=
  match k with
  | Some s => s
  | None => "undefined"
  end.

Definition statusText (s : Status) : string :=
  match s with
  | PASS => "PASS"
  | WARN => "WARN"
  | FAIL => "FAIL"
  end.

(** [`${e.key},${e.total_hours},${e.expected_hours},${e.delta},${e.status}`] *)
Definition csvLine (e : WeeklyEntry) : string :=
  keyText (key e) ++ "," ++ NumberToString (total_hours e) ++ ","
  ++ NumberToString (expected_hours e) ++ "," ++ NumberToString (delta e) ++ ","
  ++ statusText (status e).

(** The text [weeklySummary] writes to its file. *)
Definition csv (entries : list WeeklyEntry) : string :=
  join LF (["employeeKey,total_hours,expected_hours,delta,status"]
             ++ map csvLine entries)%list.

(** The number of code units of [s] that are [c]. *)
Fixpoint countChar (c : ascii) (s : string) : nat :=
  match s with
  | EmptyString => 0
  | String a s' => ((if Ascii.eqb a c then 1 else 0) + countChar c s')%nat
  end.

(** ** Measures of a run *)





(** A row of the store that holds the fields of a record, the keys apart. *)
Definition holds (x : Employee) (c : Cleaned) : Prop :=
  Some (e_firstName x) = firstName c /\ Some (e_lastName x) = lastName c
  /\ e_department x = department c /\ e_role x = role c
  /\ e_hoursWorked x = hoursWorked c /\ e_active x = active c.

(** The row [y] is the row [x] as updates of the requests [ops] left it:
    [x] itself when none was applied to it. *)
Definition rowAfter (ops : list (option UpsertArgs)) (x y : Employee) : Prop :=
  exists us : list UpsertArgs,
    (forall a, In a us -> In (Some a) ops)
    /\ y = fold_left (fun row a => applyUpdate (update a) row) us x.

(** The store [db'] keeps the rows of [db]: it holds the rows of [db] at
    their places, each as the updates of [ops] left it, and after them the
    rows that [ops] created, one per request at most. *)
Definition keepsRows (ops : list (option UpsertArgs)) (db db' : Store) : Prop :=
  exists kept created : Store,
    db' = (kept ++ created)%list
    /\ Forall2 (rowAfter ops) db kept
    /\ Forall (fun y => exists a, In (Some a) ops /\ rowAfter ops (create a) y) created
    /\ (List.length created <= List.length ops)%nat.

(** ** Strings: what [trim] leaves *)

Lemma trimStart_first (s : string) (c : ascii) :
  firstChar (trimStart s) = Some c -> isWhiteSpace c = false.
Proof.
  induction s as [|a s IH]; simpl; [discriminate|].
  destruct (isWhiteSpace a) eqn:E; [exact IH|].
  simpl. intros H. injection H as <-. exact E.
Qed.

Lemma trimEnd_first (s : string) (c : ascii) :
  firstChar (trimEnd s) = Some c -> firstChar s = Some c.
Proof.
  destruct s as [|a s]; simpl; [discriminate|].
  destruct (trimEnd s); [destruct (isWhiteSpace a); simpl; [discriminate|]|]; auto.
Qed.

Lemma trimEnd_last (s : string) (c : ascii) :
  lastChar (trimEnd s) = Some c -> isWhiteSpace c = false.
Proof.
  induction s as [|a s IH]; simpl; [discriminate|].
  destruct (trimEnd s) as [|b t] eqn:E.
  - destruct (isWhiteSpace a) eqn:Ea; simpl; [discriminate|].
    intros H. injection H as <-. exact Ea.
  - intros H. apply IH. exact H.
Qed.

Lemma trim_isTrimmed (s : string) : isTrimmed (trim s) = true.
Proof.
  unfold isTrimmed, trim.
  destruct (firstChar (trimEnd (trimStart s))) as [a|] eqn:Ea; [|reflexivity].
  destruct (lastChar (trimEnd (trimStart s))) as [b|] eqn:Eb; [|reflexivity].
  apply trimEnd_first, trimStart_first in Ea.
  apply trimEnd_last in Eb.
  rewrite Ea, Eb. reflexivity.
Qed.

Lemma trimStart_fixed (s : string) :
  (forall c, firstChar s = Some c -> isWhiteSpace c = false) -> trimStart s = s.
Proof.
  destruct s as [|a s]; simpl; [reflexivity|].
  intros H. rewrite (H a eq_refl). reflexivity.
Qed.

Lemma trimEnd_fixed (s : string) :
  (forall c, lastChar s = Some c -> isWhiteSpace c = false) -> trimEnd s = s.
Proof.
  induction s as [|a s IH]; simpl; [reflexivity|].
  intros H. destruct s as [|b t].
  - simpl. rewrite (H a eq_refl). reflexivity.
  - rewrite IH by exact H. reflexivity.
Qed.

(** [trim] does nothing to what it returns. *)
Lemma trim_idempotent (s : string) : trim (trim s) = trim s.
Proof.
  unfold trim at 1.
  rewrite (trimStart_fixed (trim s)).
  - apply trimEnd_fixed. intros c. apply trimEnd_last.
  - intros c H. unfold trim in H. apply trimEnd_first, trimStart_first in H. exact H.
Qed.

(** ** Numbers: what [Math.round(n * 100) / 100] returns *)

Lemma round2_hundredths (n : Q) :
  exists k : Z,
    (Math_round (n * 100) / 100 == inject_Z k / 100)%Q
    /\ (inject_Z k <= n * 100 + (1 # 2))%Q
    /\ (n * 100 + (1 # 2) < inject_Z k + 1)%Q.
Proof.
  exists (Qfloor (n * 100 + (1 # 2))). unfold Math_round. split; [reflexivity|]. split.
  - apply Qfloor_le.
  - pose proof (Qlt_floor (n * 100 + (1 # 2))) as H.
    rewrite inject_Z_plus in H. exact H.
Qed.

Lemma round2_of_hundredths (k : Z) :
  (Math_round (inject_Z k / 100 * 100) / 100 == inject_Z k / 100)%Q.
Proof.
  unfold Math_round.
  assert (E : Qfloor (inject_Z k / 100 * 100 + (1 # 2)) = k).
  { assert (H : (inject_Z k / 100 * 100 + (1 # 2) == inject_Z k + (1 # 2))%Q) by field.
    rewrite (Qfloor_comp _ _ H).
    pose proof (Qfloor_le (inject_Z k + (1 # 2))) as H1.
    pose proof (Qlt_floor (inject_Z k + (1 # 2))) as H2.
    set (f := Qfloor (inject_Z k + (1 # 2))) in *.
    rewrite inject_Z_plus in H2. change (inject_Z 1) with 1%Q in H2.
    assert (A : (inject_Z f < inject_Z (k + 1))%Q)
      by (rewrite inject_Z_plus; change (inject_Z 1) with 1%Q; lra).
    assert (B : (inject_Z k < inject_Z (f + 1))%Q)
      by (rewrite inject_Z_plus; change (inject_Z 1) with 1%Q; lra).
    rewrite <- Zlt_Qlt in A, B. lia. }
  rewrite E. reflexivity.
Qed.

(** ** The normalizer *)

Lemma includes_In (l : list string) (s : string) : includes l s = true <-> In s l.
Proof.
  unfold includes. rewrite existsb_exists. split.
  - intros [x [Hx E]]. apply String.eqb_eq in E. subst. exact Hx.
  - intros H. exists s. split; [exact H|apply String.eqb_refl].
Qed.

Lemma includes_not_In (l : list string) (s : string) : includes l s = false <-> ~ In s l.
Proof.
  rewrite <- includes_In. destruct (includes l s); split; intros; congruence.
Qed.

Lemma orElse_absent {A : Type} (v : JsValue) (f : string -> A) (d : A) :
  absentOrEmpty v -> orElse (option_map trim (optToString v)) f d = d.
Proof.
  unfold absentOrEmpty. destruct (optToString v) as [t|]; simpl; [|reflexivity].
  intros ->. reflexivity.
Qed.

(** ** The batcher *)

Section BatchFacts.

Context {T : Type}.

Lemma slice_inside (arr : list T) (i size : Z) :
  (0 <= i < Z.of_nat (List.length arr))%Z -> (1 <= size)%Z ->
  slice arr i (i + size) = firstn (Z.to_nat size) (skipn (Z.to_nat i) arr).
Proof.
  intros Hi Hs. unfold slice.
  destruct (i <? 0)%Z eqn:E1; [apply Z.ltb_lt in E1; lia|].
  destruct (i + size <? 0)%Z eqn:E2; [apply Z.ltb_lt in E2; lia|].
  rewrite (Z.min_l i) by lia.
  destruct (Z.le_gt_cases (i + size) (Z.of_nat (List.length arr))) as [H|H].
  - rewrite Z.min_l by lia. f_equal. lia.
  - rewrite Z.min_r by lia.
    rewrite !firstn_all2; [reflexivity| |]; rewrite length_skipn; lia.
Qed.

Lemma slice_inside_length (arr : list T) (i size : Z) :
  (0 <= i < Z.of_nat (List.length arr))%Z -> (1 <= size)%Z ->
  Z.of_nat (List.length (slice arr i (i + size)))
  = Z.min size (Z.of_nat (List.length arr) - i).
Proof.
  intros Hi Hs. rewrite slice_inside by assumption.
  rewrite length_firstn, length_skipn. lia.
Qed.

(** The loop from an index [i >= 0] with a size of at least one: it ends
    within [arr.length - i] iterations, and the batches [bs] it pushes are
    the rest of the array from [i] on, cut every [size] elements. *)
Lemma toBatches_loop_spec (fuel : nat) :
  forall (arr : list T) (size i : Z) (out : list (list T)),
    (1 <= size)%Z -> (0 <= i)%Z ->
    (Z.of_nat (List.length arr) - i <= Z.of_nat fuel)%Z ->
    exists bs,
      toBatches_loop fuel arr size (i, out) = Some (out ++ bs)%list
      /\ List.concat bs = skipn (Z.to_nat i) arr
      /\ Forall (fun b => (Z.of_nat (List.length b) <= size)%Z) bs
      /\ fullButLast size bs
      /\ ((i < Z.of_nat (List.length arr))%Z -> bs <> [])
      /\ (forall j b, nth_error bs j = Some b ->
            b = slice arr (i + Z.of_nat j * size) (i + Z.of_nat j * size + size)).
Proof.
  induction fuel as [|fuel IH]; intros arr size i out Hs Hi Hf;
    simpl toBatches_loop; unfold loopTest; simpl fst; simpl snd;
    destruct (i <? Z.of_nat (List.length arr))%Z eqn:E.
  - apply Z.ltb_lt in E. lia.
  - apply Z.ltb_ge in E. exists []. rewrite app_nil_r.
    repeat split; auto.
    + simpl. symmetry. apply skipn_all2. lia.
    + lia.
    + intros [|j] b; discriminate.
  - apply Z.ltb_lt in E. simpl loopStep.
    destruct (IH arr size (i + size)%Z (out ++ [slice arr i (i + size)])%list)
      as [bs [H1 [H2 [H3 [H4 [H5 H6]]]]]]; try lia.
    pose proof (slice_inside_length arr i size (conj Hi E) Hs) as Hlen.
    exists (slice arr i (i + size) :: bs). repeat split.
    + rewrite H1, <- app_assoc. reflexivity.
    + simpl. rewrite H2, slice_inside by lia.
      replace (Z.to_nat (i + size)) with (Z.to_nat size + Z.to_nat i)%nat by lia.
      rewrite <- skipn_skipn. apply firstn_skipn.
    + constructor; [lia|exact H3].
    + destruct bs as [|b bs].
      * simpl. lia.
      * split; [|exact H4].
        destruct (Z.lt_ge_cases (i + size) (Z.of_nat (List.length arr))) as [L|L]; [lia|].
        exfalso. clear - H2 H4 L Hi Hs.
        assert (E0 : List.length (List.concat (b :: bs)) = 0%nat)
          by (rewrite H2, length_skipn; lia).
        simpl in E0. rewrite length_app in E0.
        destruct b; simpl in E0; [|lia].
        destruct bs; simpl in H4; lia.
    + discriminate.
    + intros [|j] b Hb; simpl in Hb.
      * injection Hb as <-. f_equal; lia.
      * rewrite (H6 j b Hb). f_equal; lia.
  - apply Z.ltb_ge in E. exists []. rewrite app_nil_r.
    repeat split; auto.
    + simpl. symmetry. apply skipn_all2. lia.
    + lia.
    + intros [|j] b; discriminate.
Qed.

Lemma loopStep_index (arr : list T) (size : Z) (st : LoopState) :
  fst (loopStep arr size st) = (fst st + size)%Z.
Proof. destruct st as [i out]. reflexivity. Qed.

Lemma loopState_index (arr : list T) (size : Z) (n : nat) :
  fst (loopState arr size n) = (Z.of_nat n * size)%Z.
Proof.
  induction n as [|n IH]; [reflexivity|].
  cbn [loopState]. rewrite loopStep_index, IH. lia.
Qed.

(** A run of the loop goes through the states [loopState arr size n]: after
    [n] iterations whose tests held, it goes on from the state [n]. *)
Lemma toBatches_unroll (arr : list T) (size : Z) (n : nat) :
  forall fuel : nat,
    (forall k, (k < n)%nat -> loopTest arr (loopState arr size k) = true) ->
    toBatches (n + fuel) arr size = toBatches_loop fuel arr size (loopState arr size n).
Proof.
  induction n as [|n IH]; intros fuel H; [reflexivity|].
  replace (S n + fuel)%nat with (n + S fuel)%nat by lia.
  rewrite IH by (intros k Hk; apply H; lia).
  simpl. rewrite (H n) by lia. reflexivity.
Qed.

(** With a size of zero or less the index never gets past zero, and the
    loop uses up any fuel. *)
Lemma toBatches_loop_stuck (fuel : nat) :
  forall (arr : list T) (size : Z) (st : LoopState),
    (size <= 0)%Z -> arr <> [] -> (fst st <= 0)%Z ->
    toBatches_loop fuel arr size st = None.
Proof.
  induction fuel as [|fuel IH]; intros arr size st Hs Ha Hi; simpl;
    assert (E : loopTest arr st = true)
      by (unfold loopTest; apply Z.ltb_lt; destruct arr; [contradiction|simpl; lia]);
    rewrite E; [reflexivity|].
  apply IH; try assumption. rewrite loopStep_index. lia.
Qed.

(** With a size of at least one and fuel for [arr.length] iterations the
    batcher returns, and its batches put end to end are the array. *)
Lemma toBatches_concat (arr : list T) (size : Z) (fuel : nat) :
  (1 <= size)%Z -> (List.length arr <= fuel)%nat ->
  exists batches, toBatches fuel arr size = Some batches /\ List.concat batches = arr.
Proof.
  intros Hs Hf.
  destruct (toBatches_loop_spec fuel arr size 0 [] Hs) as [bs [H1 [H2 _]]]; try lia.
  exists bs. split; assumption.
Qed.

(** C4.  With a batch size of at least one, [toBatches] returns (any fuel of
    at least [arr.length] iterations is enough), and its batches are
    contiguous slices of the array in order: batch [j] is
    [arr.slice(j * size, j * size + size)]; their concatenation is the array;
    no batch is longer than the size; and every batch but the last has
    exactly [size] elements. *)
Theorem toBatches_partition (arr : list T) (size : Z) (fuel : nat) :
  (1 <= size)%Z -> (List.length arr <= fuel)%nat ->
  exists batches,
    toBatches fuel arr size = Some batches
    /\ List.concat batches = arr
    /\ Forall (fun b => (Z.of_nat (List.length b) <= size)%Z) batches
    /\ fullButLast size batches
    /\ (forall j b, nth_error batches j = Some b ->
          b = slice arr (Z.of_nat j * size) (Z.of_nat j * size + size)).
Proof.
  intros Hs Hf.
  destruct (toBatches_loop_spec fuel arr size 0 [] Hs) as [bs [H1 [H2 [H3 [H4 [_ H6]]]]]];
    try lia.
  exists bs. repeat split; assumption.
Qed.

End BatchFacts.

(** ** The validator and the loop of steps 2 and 3 *)

Lemma noViolation_nil (c : Cleaned) : noViolation c = true <-> validate c = [].
Proof.
  unfold noViolation. destruct (validate c); simpl; split; intros; congruence.
Qed.

Lemma cleanValidate_fst (rows : list Row) :
  forall i cl er,
    fst (cleanValidate rows i cl er) = (cl ++ filter noViolation (map clean rows))%list.
Proof.
  induction rows as [|r rows IH]; intros i cl er; simpl.
  - rewrite app_nil_r. reflexivity.
  - unfold noViolation at 1.
    destruct (0 <? List.length (validate (clean r)))%nat; simpl; rewrite IH.
    + reflexivity.
    + rewrite <- app_assoc. reflexivity.
Qed.


Lemma cleanValidate_length (rows : list Row) :
  forall i cl er,
    (List.length (fst (cleanValidate rows i cl er))
     + List.length (snd (cleanValidate rows i cl er))
     = List.length cl + List.length er + List.length rows)%nat.
Proof.
  induction rows as [|r rows IH]; intros i cl er; simpl; [lia|].
  destruct (0 <? List.length (validate (clean r)))%nat; rewrite IH, length_app; simpl; lia.
Qed.

Lemma accepted_filter (rows : list Row) :
  accepted rows = filter noViolation (map clean rows).
Proof. unfold accepted. rewrite cleanValidate_fst. reflexivity. Qed.



(** The count of a run of committed batches. *)
Lemma upsertBatches_success (batches : list (list Cleaned)) :
  forall db n db' m,
    upsertBatches batches db n = Committed db' m ->
    m = (n + List.length (List.concat batches))%nat.
Proof.
  induction batches as [|b bs IH]; intros db n db' m; simpl.
  - intros H. injection H as _ <-. lia.
  - destruct (transaction db (map upsertRequest b)); [|discriminate].
    intros H. apply IH in H. rewrite length_app. lia.
Qed.

(** ** The map of the weekly summary *)

Lemma key_eqb_eq (a b : Key) : key_eqb a b = true <-> a = b.
Proof.
  destruct a as [x|], b as [y|]; simpl; split; try congruence.
  - intros H. apply String.eqb_eq in H. congruence.
  - intros H. injection H as ->. apply String.eqb_refl.
Qed.

Lemma key_eqb_refl (a : Key) : key_eqb a a = true.
Proof. apply key_eqb_eq. reflexivity. Qed.

Lemma key_eqb_sym (a b : Key) : key_eqb a b = key_eqb b a.
Proof.
  destruct (key_eqb a b) eqn:E1, (key_eqb b a) eqn:E2; try reflexivity.
  - apply key_eqb_eq in E1. subst. rewrite key_eqb_refl in E2. discriminate.
  - apply key_eqb_eq in E2. subst. rewrite key_eqb_refl in E1. discriminate.
Qed.

Lemma map_get_set (m : JsMap) (k k' : Key) (v : Q) :
  map_get (map_set m k v) k' = if key_eqb k' k then Some v else map_get m k'.
Proof.
  induction m as [|[k0 v0] m IH]; simpl.
  - reflexivity.
  - destruct (key_eqb k k0) eqn:E; simpl.
    + apply key_eqb_eq in E. subst k0. destruct (key_eqb k' k); reflexivity.
    + rewrite IH. destruct (key_eqb k' k0) eqn:E0; [|reflexivity].
      apply key_eqb_eq in E0. subst k0.
      rewrite key_eqb_sym, E. reflexivity.
Qed.

Lemma map_set_keys (m : JsMap) (k : Key) (v : Q) :
  map fst (map_set m k v)
  = if existsb (key_eqb k) (map fst m) then map fst m else (map fst m ++ [k])%list.
Proof.
  induction m as [|[k0 v0] m IH]; simpl; [reflexivity|].
  destruct (key_eqb k k0) eqn:E; simpl; [reflexivity|].
  rewrite IH. destruct (existsb (key_eqb k) (map fst m)); reflexivity.
Qed.

Lemma existsb_key_In (k : Key) (l : list Key) : existsb (key_eqb k) l = true <-> In k l.
Proof.
  rewrite existsb_exists. split.
  - intros [x [Hx E]]. apply key_eqb_eq in E. subst. exact Hx.
  - intros H. exists k. split; [exact H|apply key_eqb_refl].
Qed.

Lemma map_get_In (m : JsMap) (k : Key) (v : Q) :
  NoDup (map fst m) -> In (k, v) m -> map_get m k = Some v.
Proof.
  induction m as [|[k0 v0] m IH]; simpl; [contradiction|].
  intros Hnd [H|H].
  - injection H as -> ->. rewrite key_eqb_refl. reflexivity.
  - inversion Hnd as [|? ? Hnot Hnd']; subst.
    destruct (key_eqb k k0) eqn:E.
    + apply key_eqb_eq in E. subst k0. exfalso. apply Hnot.
      apply (in_map fst) in H. exact H.
    + apply IH; assumption.
Qed.

Lemma addHours_none (k : Key) (rows : list Cleaned) (acc : Q) :
  existsb (fun r => key_eqb (identityKey r) k) rows = false ->
  fold_left (addHours k) rows acc = acc.
Proof.
  revert acc. induction rows as [|r rows IH]; intros acc; simpl; [reflexivity|].
  intros H. apply orb_false_iff in H. destruct H as [H1 H2].
  unfold addHours at 2. rewrite H1. apply IH. exact H2.
Qed.

(** What the map holds for a key after the first loop over [rows]. *)
Lemma accumulate_get (rows : list Cleaned) :
  forall (m : JsMap) (k : Key),
    map_get (fold_left accumulate rows m) k
    = if existsb (fun r => key_eqb (identityKey r) k) rows
      then Some (fold_left (addHours k) rows (nullish (map_get m k) 0%Q))
      else map_get m k.
Proof.
  induction rows as [|r rows IH]; intros m k; simpl; [reflexivity|].
  rewrite IH. unfold accumulate. rewrite !map_get_set.
  rewrite (key_eqb_sym k (identityKey r)).
  assert (A : addHours k (nullish (map_get m k) 0%Q) r
              = if key_eqb (identityKey r) k
                then (nullish (map_get m k) 0 + hoursWorked r)%Q
                else nullish (map_get m k) 0%Q) by reflexivity.
  rewrite A. clear A.
  destruct (key_eqb (identityKey r) k) eqn:E; simpl.
  - apply key_eqb_eq in E. subst k.
    destruct (existsb _ rows) eqn:Ex; [reflexivity|].
    rewrite addHours_none by exact Ex. reflexivity.
  - reflexivity.
Qed.

Lemma accumulate_keys (rows : list Cleaned) :
  forall m : JsMap,
    NoDup (map fst m) ->
    NoDup (map fst (fold_left accumulate rows m))
    /\ (forall k, In k (map fst (fold_left accumulate rows m))
                  <-> In k (map fst m) \/ exists r, In r rows /\ identityKey r = k).
Proof.
  induction rows as [|r rows IH]; intros m Hnd; simpl.
  - split; [exact Hnd|]. intros k. split; [auto|].
    intros [H|[r [[] _]]]. exact H.
  - assert (Hnd' : NoDup (map fst (accumulate m r))).
    { unfold accumulate. rewrite map_set_keys.
      destruct (existsb (key_eqb (identityKey r)) (map fst m)) eqn:E; [exact Hnd|].
      apply NoDup_app; [exact Hnd|repeat constructor; intros []|].
      intros x Hx [<-|[]].
      apply existsb_key_In in Hx. congruence. }
    destruct (IH _ Hnd') as [H1 H2]. split; [exact H1|].
    intros k. rewrite H2. unfold accumulate. rewrite map_set_keys.
    destruct (existsb (key_eqb (identityKey r)) (map fst m)) eqn:E.
    + apply existsb_key_In in E. split.
      * intros [H|[x [Hx Hk]]]; [left; exact H|right; exists x; auto].
      * intros [H|[x [[<-|Hx] Hk]]]; [left; exact H|left; subst; exact E|right; eauto].
    + rewrite in_app_iff. simpl. split.
      * intros [[H|[<-|[]]]|[x [Hx Hk]]]; [left; exact H|right; exists r; auto|right; exists x; auto].
      * intros [H|[x [[<-|Hx] Hk]]]; [left; left; exact H|left; right; left; exact Hk|right; eauto].
Qed.

(** The totals: one entry per identity key of the input, in the order of
    the first record of each key, with the sum of the hours of that key. *)
Lemma totals_spec (rows : list Cleaned) :
  NoDup (map fst (totals rows))
  /\ (forall k, In k (map fst (totals rows)) <-> exists r, In r rows /\ identityKey r = k)
  /\ (forall k v, In (k, v) (totals rows) -> v = hoursOf k rows).
Proof.
  destruct (accumulate_keys rows [] (NoDup_nil _)) as [H1 H2]. fold (totals rows) in H1, H2.
  split; [exact H1|]. split.
  - intros k. rewrite H2. simpl. split; [intros [[]|H]; exact H|intros H; right; exact H].
  - intros k v Hin. pose proof (map_get_In _ _ _ H1 Hin) as G.
    unfold totals in G. rewrite accumulate_get in G. simpl in G.
    destruct (existsb _ rows) eqn:E.
    + injection G as <-. reflexivity.
    + discriminate.
Qed.

(** ** Accepted records *)

Lemma ltb_lt (a b : Q) : ltb a b = true <-> (a < b)%Q.
Proof.
  unfold ltb. destruct (Qlt_le_dec a b) as [H|H]; split; intros; try congruence.
  exfalso. apply (Qle_not_lt _ _ H). assumption.
Qed.

Lemma ltb_ge (a b : Q) : ltb a b = false <-> (b <= a)%Q.
Proof.
  unfold ltb. destruct (Qlt_le_dec a b) as [H|H]; split; intros; try congruence.
  exfalso. apply (Qle_not_lt b a); assumption.
Qed.

(** A record with no violation has a key, both names, and hours from 0 to 24. *)
Lemma validate_nil (c : Cleaned) :
  validate c = [] ->
  truthy (email c) || truthy (employeeNum c) = true
  /\ truthy (firstName c) = true
  /\ truthy (lastName c) = true
  /\ (0 <= hoursWorked c)%Q
  /\ (hoursWorked c <= 24)%Q.
Proof.
  unfold validate.
  destruct (truthy (email c)), (truthy (employeeNum c)), (truthy (firstName c)),
    (truthy (lastName c)), (ltb (hoursWorked c) 0) eqn:E1, (ltb 24 (hoursWorked c)) eqn:E2;
    simpl; try discriminate; intros _;
    apply ltb_ge in E1; apply ltb_ge in E2; auto.
Qed.

Lemma clean_hoursWorked_twoDecimals (r : Row) : twoDecimals (hoursWorked (clean r)).
Proof.
  simpl. unfold toFloat2. destruct (isBlank (raw_hoursWorked r)); simpl.
  - exists 0%Z. reflexivity.
  - destruct (ToNumber (raw_hoursWorked r)) as [n|]; simpl.
    + destruct (round2_hundredths n) as [k [Hk _]]. exists k. exact Hk.
    + exists 0%Z. reflexivity.
Qed.

Lemma accepted_In (rows : list Row) (c : Cleaned) :
  In c (accepted rows) <-> exists r, In r rows /\ c = clean r /\ validate c = [].
Proof.
  rewrite accepted_filter, filter_In, in_map_iff, noViolation_nil. split.
  - intros [[r [<- Hr]] Hv]. eauto.
  - intros [r [Hr [-> Hv]]]. eauto.
Qed.

Lemma twoDecimals_plus (a b : Q) : twoDecimals a -> twoDecimals b -> twoDecimals (a + b).
Proof.
  intros [x Hx] [y Hy]. exists (x + y)%Z. rewrite Hx, Hy, inject_Z_plus. field.
Qed.

Lemma twoDecimals_round (q : Q) : twoDecimals q -> (Math_round (q * 100) / 100 == q)%Q.
Proof.
  intros [k Hk]. unfold Math_round.
  assert (E : (q * 100 + (1 # 2) == inject_Z k / 100 * 100 + (1 # 2))%Q)
    by (rewrite Hk; reflexivity).
  rewrite (Qfloor_comp _ _ E), Hk. apply round2_of_hundredths.
Qed.

(** A sum of hours that are not negative and have two decimals is such a
    number too. *)
Lemma hoursOf_bounds (k : Key) (rows : list Cleaned) :
  (forall c, In c rows -> twoDecimals (hoursWorked c) /\ (0 <= hoursWorked c)%Q) ->
  twoDecimals (hoursOf k rows) /\ (0 <= hoursOf k rows)%Q.
Proof.
  unfold hoursOf.
  assert (G : forall acc, twoDecimals acc /\ (0 <= acc)%Q ->
              (forall c, In c rows -> twoDecimals (hoursWorked c) /\ (0 <= hoursWorked c)%Q) ->
              twoDecimals (fold_left (addHours k) rows acc)
              /\ (0 <= fold_left (addHours k) rows acc)%Q).
  { induction rows as [|r rows IH]; intros acc Hacc Hall; simpl; [exact Hacc|].
    apply IH; [|intros c Hc; apply Hall; right; exact Hc].
    unfold addHours. destruct (key_eqb (identityKey r) k); [|exact Hacc].
    destruct Hacc as [A1 A2]. destruct (Hall r (or_introl eq_refl)) as [B1 B2].
    split; [apply twoDecimals_plus; assumption|lra]. }
  intros Hall. apply G; [|exact Hall]. split; [exists 0%Z; reflexivity|lra].
Qed.

Lemma accepted_hours (rows : list Row) (c : Cleaned) :
  In c (accepted rows) -> twoDecimals (hoursWorked c) /\ (0 <= hoursWorked c)%Q.
Proof.
  intros H. apply accepted_In in H. destruct H as [r [_ [-> Hv]]].
  split; [apply clean_hoursWorked_twoDecimals|apply validate_nil in Hv; tauto].
Qed.

(** An entry of the summary, in terms of its key. *)
Lemma weeklySummary_In (rows : list Cleaned) (e : WeeklyEntry) :
  In e (weeklySummary rows) ->
  (exists r, In r rows /\ identityKey r = key e)
  /\ e = entryOf (key e, hoursOf (key e) rows).
Proof.
  unfold weeklySummary. rewrite in_map_iff. intros [[k v] [<- Hin]].
  destruct (totals_spec rows) as [_ [H2 H3]].
  rewrite (H3 _ _ Hin). simpl. split; [|reflexivity].
  apply H2. apply (in_map fst) in Hin. exact Hin.
Qed.


(** The entries of the summary of the accepted records of an input. *)
Lemma summary_entry (rows : list Row) (e : WeeklyEntry) :
  In e (weeklySummary (accepted rows)) ->
  e = entryOf (key e, hoursOf (key e) (accepted rows))
  /\ twoDecimals (hoursOf (key e) (accepted rows))
  /\ (0 <= hoursOf (key e) (accepted rows))%Q.
Proof.
  intros H. apply weeklySummary_In in H. destruct H as [_ H].
  split; [exact H|]. apply hoursOf_bounds. intros c. apply accepted_hours.
Qed.

(** ** Dry runs *)

(** C9.  A dry run, and any run with no accepted record, skips the upsert
    stage: it needs no fuel, it returns with the store as it was and a
    success count of 0, and it still holds the summary of the accepted
    records with its tally.  The summary does not depend on the flag: a run
    that is not a dry run, on whatever store, returns the same entries, the
    same PASS, WARN and FAIL counts and the same rejections as the dry run
    over the same input, whenever it returns. *)
Theorem dry_run_summary (rows : list Row) :
  (forall (fuel : nat) (db : Store),
      exists rep,
        main fuel true rows db = Returned rep
        /\ db_after rep = db /\ success rep = 0%nat
        /\ entries rep = weeklySummary (accepted rows)
        /\ n_pass rep = tally PASS (entries rep)
        /\ n_warn rep = tally WARN (entries rep)
        /\ n_fail rep = tally FAIL (entries rep))
  /\ (accepted rows = [] ->
      forall (dry : bool) (fuel : nat) (db : Store),
      exists rep,
        main fuel dry rows db = Returned rep
        /\ db_after rep = db /\ success rep = 0%nat
        /\ entries rep = weeklySummary (accepted rows))
  /\ (forall (fuel fuel' : nat) (db db' : Store) (rep rep' : Report),
         main fuel true rows db = Returned rep ->
         main fuel' false rows db' = Returned rep' ->
         entries rep' = entries rep
         /\ n_pass rep' = n_pass rep /\ n_warn rep' = n_warn rep /\ n_fail rep' = n_fail rep
         /\ rejections rep' = rejections rep).
Proof.
  unfold main, accepted.
  destruct (cleanValidate rows 0 [] []) as [cleaned errors]. simpl fst.
  split; [|split].
  - intros fuel db. simpl. eexists. split; [reflexivity|]. simpl. repeat split.
  - intros -> dry fuel db. rewrite andb_false_r. eexists. split; [reflexivity|].
    simpl. repeat split.
  - intros fuel fuel' db db' rep rep'. simpl negb. simpl andb.
    intros H. injection H as <-.
    destruct (0 <? List.length cleaned)%nat.
    + destruct (toBatches fuel' cleaned BATCH_SIZE) as [bs|]; [|discriminate].
      destruct (upsertBatches bs db' 0); [|discriminate].
      intros H. injection H as <-. simpl. repeat split.
    + intros H. injection H as <-. simpl. repeat split.
Qed.

(** ** Termination of the batcher *)

(** C10.  A run of [toBatches] goes through the states of its loop, one per
    iteration.  With a batch size of at least one the index of the loop grows by
    the size at each iteration, and [toBatches] returns on every array once
    the fuel covers [arr.length] iterations.  With a size of zero or less and
    an array that is not empty the test of the loop holds after any number of
    iterations, so that no fuel is enough.  The size is read from the
    environment as [Number] gives it, with no check: when the environment
    gives an integer [BATCH_SIZE] of zero or less, a run that is not a dry
    run and has an accepted record never leaves the batching stage. *)
Theorem toBatches_termination :
  (forall (T : Type) (arr : list T) (size : Z) (n fuel : nat),
      (forall k, (k < n)%nat -> loopTest arr (loopState arr size k) = true) ->
      toBatches (n + fuel) arr size = toBatches_loop fuel arr size (loopState arr size n))
  /\ (forall (T : Type) (arr : list T) (size : Z),
      (1 <= size)%Z ->
      (forall n : nat,
          fst (loopState arr size (S n)) = (fst (loopState arr size n) + size)%Z
          /\ (fst (loopState arr size n) < fst (loopState arr size (S n)))%Z)
      /\ (forall fuel : nat, (List.length arr <= fuel)%nat ->
            exists batches, toBatches fuel arr size = Some batches))
  /\ (forall (T : Type) (arr : list T) (size : Z),
         (size <= 0)%Z -> arr <> [] ->
         (forall n : nat, loopTest arr (loopState arr size n) = true)
         /\ (forall fuel : nat, toBatches fuel arr size = None))
  /\ (forall s : string, s <> "" -> BATCH_SIZE_of (Some s) = StringToNumber s)
  /\ (forall (env : option string) (rows : list Row) (db : Store),
         BATCH_SIZE_of env = Some (inject_Z BATCH_SIZE) ->
         (BATCH_SIZE <= 0)%Z -> accepted rows <> [] ->
         forall fuel : nat, main fuel false rows db = OutOfFuel).
Proof.
  split; [|split; [|split; [|split]]].
  - intros T arr size n fuel H. apply toBatches_unroll. exact H.
  - intros T arr size Hs. split.
    + intros n. cbn [loopState]. rewrite loopStep_index. lia.
    + intros fuel Hf.
      destruct (toBatches_concat arr size fuel Hs Hf) as [bs [H _]]. eauto.
  - intros T arr size Hs Ha. split.
    + intros n. unfold loopTest. rewrite loopState_index. apply Z.ltb_lt.
      destruct arr; [contradiction|]. simpl List.length. nia.
    + intros fuel. apply toBatches_loop_stuck; simpl; auto; lia.
  - intros s Hs. unfold BATCH_SIZE_of, envNumber.
    destruct (s =? "") eqn:E; [apply String.eqb_eq in E; contradiction|reflexivity].
  - intros env rows db _ Hs Ha fuel. unfold main. unfold accepted in Ha.
    destruct (cleanValidate rows 0 [] []) as [cleaned errors]. simpl in Ha. simpl negb.
    destruct cleaned as [|c cleaned]; [contradiction|]. simpl andb.
    unfold toBatches.
    rewrite toBatches_loop_stuck; [reflexivity|exact Hs|discriminate|simpl; lia].
Qed.

(** ** Empty strings *)

(** The violations of a record, message by message. *)
Lemma validate_In (c : Cleaned) (m : string) :
  In m (validate c)
  <-> (m = "Missing unique key (email or employeeNum)."
       /\ truthy (email c) = false /\ truthy (employeeNum c) = false)
      \/ (m = "Missing firstName." /\ truthy (firstName c) = false)
      \/ (m = "Missing lastName." /\ truthy (lastName c) = false)
      \/ (m = "hoursWorked cannot be negative." /\ ltb (hoursWorked c) 0 = true)
      \/ (m = "hoursWorked per record > 24 is not allowed."
          /\ ltb 24 (hoursWorked c) = true).
Proof.
  clear. unfold validate.
  destruct (truthy (email c)), (truthy (employeeNum c)), (truthy (firstName c)),
    (truthy (lastName c)), (ltb (hoursWorked c) 0), (ltb 24 (hoursWorked c));
    simpl; intuition (subst; auto; congruence).
Qed.

Lemma clean_empty (f : string -> string) (v : JsValue) (t : string) :
  f "" = "" -> optToString v = Some t -> trim t = "" ->
  option_map (fun s => f (trim s)) (optToString v) = Some "".
Proof. intros Hf -> Ht. simpl. rewrite Ht, Hf. reflexivity. Qed.

(** C8, as amended.  A [department] that is empty once trimmed becomes
    null, while an [email], [employeeNum], [firstName] or [lastName] that is
    empty once trimmed stays the empty string.  An empty [firstName] or
    [lastName] is then a violation of the record; an empty [email] is one
    exactly when [employeeNum] is absent or empty too. *)
Theorem empty_strings_asymmetry (r : Row) :
  (forall t, optToString (raw_department r) = Some t -> trim t = "" ->
      department (clean r) = None)
  /\ (forall t, optToString (raw_email r) = Some t -> trim t = "" ->
         email (clean r) = Some "")
  /\ (forall t, optToString (raw_employeeNum r) = Some t -> trim t = "" ->
         employeeNum (clean r) = Some "")
  /\ (forall t, optToString (raw_firstName r) = Some t -> trim t = "" ->
         firstName (clean r) = Some "")
  /\ (forall t, optToString (raw_lastName r) = Some t -> trim t = "" ->
         lastName (clean r) = Some "")
  /\ (firstName (clean r) = Some "" ->
      In "Missing firstName." (validate (clean r)) /\ validate (clean r) <> [])
  /\ (lastName (clean r) = Some "" ->
      In "Missing lastName." (validate (clean r)) /\ validate (clean r) <> [])
  /\ (email (clean r) = Some "" ->
      (In "Missing unique key (email or employeeNum)." (validate (clean r))
       <-> truthy (employeeNum (clean r)) = false)).
Proof.
  assert (NE : forall m, In m (validate (clean r)) -> validate (clean r) <> [])
    by (intros m H E; rewrite E in H; exact H).
  repeat match goal with |- _ /\ _ => split end.
  - intros t H1 H2. simpl. apply orElse_absent. unfold absentOrEmpty. rewrite H1. exact H2.
  - intros t H1 H2. exact (clean_empty toLowerCase _ t eq_refl H1 H2).
  - intros t H1 H2. exact (clean_empty (fun s => s) _ t eq_refl H1 H2).
  - intros t H1 H2. exact (clean_empty (fun s => s) _ t eq_refl H1 H2).
  - intros t H1 H2. exact (clean_empty (fun s => s) _ t eq_refl H1 H2).
  - intros H.
    assert (G : In "Missing firstName." (validate (clean r))).
    { apply validate_In. right. left. rewrite H. auto. }
    split; [exact G|exact (NE _ G)].
  - intros H.
    assert (G : In "Missing lastName." (validate (clean r))).
    { apply validate_In. right. right. left. rewrite H. auto. }
    split; [exact G|exact (NE _ G)].
  - intros H. rewrite validate_In, H. simpl. intuition congruence.
Qed.




(** ** The upsert of one record *)

Lemma findRow_some (w : Where) (db before after : Store) (e : Employee) :
  findRow w db = Some (before, e, after) ->
  db = (before ++ e :: after)%list
  /\ selects w e = true
  /\ forallb (fun x => negb (selects w x)) before = true.
Proof.
  revert before. induction db as [|x db IH]; intros before; simpl; [discriminate|].
  destruct (selects w x) eqn:E.
  - intros H. injection H as <- <- <-. auto.
  - destruct (findRow w db) as [[[b y] a]|]; [|discriminate].
    intros H. injection H as <- <- <-.
    destruct (IH b eq_refl) as [-> [H1 H2]]. simpl. rewrite E. auto.
Qed.

Lemma findRow_none (w : Where) (db : Store) :
  findRow w db = None -> forallb (fun x => negb (selects w x)) db = true.
Proof.
  induction db as [|x db IH]; simpl; [reflexivity|].
  destruct (selects w x); [discriminate|].
  destruct (findRow w db) as [[[b y] a]|]; [discriminate|]. auto.
Qed.

Lemma findRow_here (w : Where) (before after : Store) (e : Employee) :
  forallb (fun x => negb (selects w x)) before = true -> selects w e = true ->
  findRow w (before ++ e :: after)%list = Some (before, e, after).
Proof.
  induction before as [|x before IH]; simpl; intros Hb He.
  - rewrite He. reflexivity.
  - apply andb_true_iff in Hb. destruct Hb as [Hx Hb].
    apply negb_true_iff in Hx. rewrite Hx, (IH Hb He). reflexivity.
Qed.

Lemma applyUpdate_twice (u : UpdateData) (e : Employee) :
  applyUpdate u (applyUpdate u e) = applyUpdate u e.
Proof.
  unfold applyUpdate. simpl. destruct (u_email u), (u_employeeNum u); reflexivity.
Qed.

(** The request of a record: where it looks, and what it writes on each branch. *)
Lemma upsertRequest_shape (c : Cleaned) (a : UpsertArgs) :
  upsertRequest c = Some a ->
  (forall e, selects (where_ a) e = true ->
             selects (where_ a) (applyUpdate (update a) e) = true)
  /\ selects (where_ a) (create a) = true
  /\ applyUpdate (update a) (create a) = create a.
Proof.
  unfold upsertRequest.
  destruct (firstName c) as [fn|]; [|discriminate].
  destruct (lastName c) as [ln|]; [|discriminate].
  destruct (truthy (email c)).
  - destruct (email c) as [e|]; [|discriminate].
    intros H. injection H as <-. simpl. split; [|split].
    + intros x Hx. exact Hx.
    + apply String.eqb_refl.
    + unfold applyUpdate. simpl. destruct (employeeNum c); reflexivity.
  - destruct (employeeNum c) as [n|]; [|discriminate].
    intros H. injection H as <-. simpl. split; [|split].
    + intros x Hx. exact Hx.
    + apply String.eqb_refl.
    + unfold applyUpdate. simpl. destruct (email c); reflexivity.
Qed.

(** The upsert of one record, done twice, leaves the store as the first
    upsert left it: the second takes the update branch on the row the first
    one wrote, and writes the same values. *)
Theorem upsert_record_idempotent (c : Cleaned) (a : UpsertArgs) (db db' : Store) :
  upsertRequest c = Some a ->
  store_upsert db a = Some db' ->
  store_upsert db' a = Some db'.
Proof.
  intros Hc. destruct (upsertRequest_shape c a Hc) as [P1 [P3 P4]].
  unfold store_upsert.
  destruct (findRow (where_ a) db) as [[[before e] after]|] eqn:F.
  - apply findRow_some in F. destruct F as [_ [He Hb]].
    destruct (existsb (clash (applyUpdate (update a) e)) (before ++ after)%list) eqn:C;
      [discriminate|].
    intros H. injection H as <-.
    rewrite (findRow_here _ _ _ _ Hb (P1 e He)), applyUpdate_twice, C. reflexivity.
  - apply findRow_none in F.
    destruct (existsb (clash (create a)) db) eqn:C; [discriminate|].
    intros H. injection H as <-.
    assert (G : findRow (where_ a) (db ++ [create a])%list = Some (db, create a, []))
      by (apply findRow_here; assumption).
    rewrite G, P4, app_nil_r, C. reflexivity.
Qed.

(** The upsert of an accepted record.  It is keyed on the email when that is
    not empty, and then leaves the stored email as it is.  Otherwise it is
    keyed on the employee number: its [create] row takes the email of the
    record when it has one (the empty string) and the placeholder
    "<employeeNum>@placeholder.local" when it has none, its [update] holds
    the email of the record, and with no email in the record the update
    leaves the stored email as it is. *)
Theorem upsert_identity_path (c : Cleaned) :
  validate c = [] ->
  exists a,
    upsertRequest c = Some a
    /\ (truthy (email c) = true ->
        exists e, email c = Some e /\ where_ a = ByEmail e
                  /\ e_email (create a) = e
                  /\ forall row, e_email (applyUpdate (update a) row) = e_email row)
    /\ (truthy (email c) = false ->
        exists n, employeeNum c = Some n /\ n <> "" /\ where_ a = ByEmployeeNum n
                  /\ e_employeeNum (create a) = Some n
                  /\ e_email (create a) = nullish (email c) (n ++ "@placeholder.local")
                  /\ u_email (update a) = email c
                  /\ (email c = None ->
                      forall row, e_email (applyUpdate (update a) row) = e_email row)).
Proof.
  intros H. apply validate_nil in H. destruct H as [Hk [Hf [Hl _]]].
  unfold upsertRequest.
  destruct (firstName c) as [fn|]; [|discriminate].
  destruct (lastName c) as [ln|]; [|discriminate].
  destruct (truthy (email c)) eqn:Te.
  - destruct (email c) as [e|] eqn:Ee; [|discriminate].
    eexists. split; [reflexivity|]. split; [|discriminate].
    intros _. exists e. simpl. auto.
  - simpl in Hk. destruct (employeeNum c) as [n|] eqn:En; [|discriminate].
    eexists. split; [reflexivity|]. split; [discriminate|].
    intros _. exists n. simpl. repeat split.
    + simpl in Hk. destruct (n =? "") eqn:E; [discriminate|].
      apply String.eqb_neq. exact E.
    + intros ->. reflexivity.
Qed.

(** ** Two runs of one list of upserts *)

Lemma clash_sym (a b : Employee) : clash a b = clash b a.
Proof.
  unfold clash. rewrite (String.eqb_sym (e_email a)).
  destruct (e_employeeNum a), (e_employeeNum b); try reflexivity.
  rewrite (String.eqb_sym s). reflexivity.
Qed.

Lemma selects_clash (w : Where) (r1 r2 : Employee) :
  selects w r1 = true -> selects w r2 = true -> clash r1 r2 = true.
Proof.
  unfold clash. destruct w as [e|n]; simpl.
  - intros H1 H2. apply String.eqb_eq in H1, H2. subst.
    rewrite <- H2, String.eqb_refl. reflexivity.
  - destruct (e_employeeNum r1) as [x|]; [|discriminate].
    destruct (e_employeeNum r2) as [y|]; [|discriminate].
    intros H1 H2. apply String.eqb_eq in H1, H2. subst.
    rewrite String.eqb_refl. apply orb_true_r.
Qed.

Lemma clashFree_app (l1 l2 : Store) :
  clashFree (l1 ++ l2)%list
  <-> clashFree l1 /\ clashFree l2
      /\ forall x y, In x l1 -> In y l2 -> clash x y = false.
Proof.
  induction l1 as [|r l1 IH]; simpl.
  - split; [intros H; repeat split; auto; intros x y []|intros [_ [H _]]; exact H].
  - rewrite existsb_app, orb_false_iff, IH. split.
    + intros [[H1 H2] [H3 [H4 H5]]]. repeat split; auto.
      intros x y [<-|Hx] Hy; [|auto].
      destruct (clash r y) eqn:E; [|reflexivity].
      rewrite <- H2. symmetry. apply existsb_exists. eauto.
    + intros [[H1 H2] [H3 H4]]. repeat split; auto.
      destruct (existsb (clash r) l2) eqn:E; [|reflexivity].
      apply existsb_exists in E. destruct E as [y [Hy Hc]].
      rewrite (H4 r y (or_introl eq_refl) Hy) in Hc. discriminate.
Qed.

Lemma existsb_false_In {A : Type} (f : A -> bool) (l : list A) (x : A) :
  existsb f l = false -> In x l -> f x = false.
Proof.
  intros H Hx. destruct (f x) eqn:E; [|reflexivity].
  rewrite <- H. symmetry. apply existsb_exists. eauto.
Qed.

Lemma touch_unselected (a : UpsertArgs) (l : Store) :
  forallb (fun x => negb (selects (where_ a) x)) l = true -> map (touch a) l = l.
Proof.
  induction l as [|x l IH]; simpl; [reflexivity|].
  intros H. apply andb_true_iff in H. destruct H as [Hx Hl].
  apply negb_true_iff in Hx. unfold touch at 1. rewrite Hx, (IH Hl). reflexivity.
Qed.

Lemma forallb_existsb_false {A : Type} (f : A -> bool) (l : list A) :
  forallb (fun x => negb (f x)) l = true <-> existsb f l = false.
Proof.
  clear. induction l as [|x l IH]; simpl; [tauto|].
  rewrite andb_true_iff, orb_false_iff, negb_true_iff, IH. tauto.
Qed.

(** An accepted upsert on a store with no clash. *)
Lemma store_upsert_step (db db' : Store) (a : UpsertArgs) :
  clashFree db -> store_upsert db a = Some db' ->
  clashFree db'
  /\ ((existsb (selects (where_ a)) db = true /\ db' = map (touch a) db)
      \/ (existsb (selects (where_ a)) db = false
          /\ existsb (clash (create a)) db = false
          /\ db' = (db ++ [create a])%list)).
Proof.
  intros Hcf. unfold store_upsert.
  destruct (findRow (where_ a) db) as [[[before r] after]|] eqn:F.
  - apply findRow_some in F. destruct F as [-> [Hr Hb]].
    destruct (existsb (clash (applyUpdate (update a) r)) (before ++ after)) eqn:C;
      [discriminate|].
    intros H. injection H as <-.
    apply clashFree_app in Hcf. destruct Hcf as [Cb [[Cr Ca] Cx]]. fold clashFree in Ca.
    assert (Ha : forallb (fun x => negb (selects (where_ a) x)) after = true).
    { apply forallb_forall. intros y Hy. apply negb_true_iff.
      destruct (selects (where_ a) y) eqn:E; [|reflexivity].
      rewrite <- (existsb_false_In _ _ y Cr Hy). symmetry.
      apply (selects_clash (where_ a)); assumption. }
    rewrite existsb_app, orb_false_iff in C. destruct C as [C1 C2].
    split.
    + apply clashFree_app. split; [exact Cb|]. split; [split; [exact C2|exact Ca]|].
      intros x y Hx [<-|Hy].
      * rewrite clash_sym. apply (existsb_false_In _ _ x C1 Hx).
      * apply Cx; [exact Hx|right; exact Hy].
    + left. split.
      * rewrite existsb_app. simpl. rewrite Hr. rewrite orb_true_r. reflexivity.
      * rewrite map_app. simpl. rewrite (touch_unselected a before Hb),
          (touch_unselected a after Ha). unfold touch. rewrite Hr. reflexivity.
  - apply findRow_none in F.
    destruct (existsb (clash (create a)) db) eqn:C; [discriminate|].
    intros H. injection H as <-. split.
    + apply clashFree_app. split; [exact Hcf|]. split; [simpl; auto|].
      intros x y Hx [<-|[]]. rewrite clash_sym. apply (existsb_false_In _ _ x C Hx).
    + right. split; [apply forallb_existsb_false; exact F|]. auto.
Qed.

Lemma applyUpdate_agree (u : UpdateData) (z1 z2 : Employee) :
  (u_email u = None -> e_email z1 = e_email z2) ->
  (u_employeeNum u = None -> e_employeeNum z1 = e_employeeNum z2) ->
  applyUpdate u z1 = applyUpdate u z2.
Proof.
  unfold applyUpdate. intros H1 H2.
  destruct (u_email u), (u_employeeNum u); simpl;
    try rewrite (H1 eq_refl); try rewrite (H2 eq_refl); reflexivity.
Qed.

Lemma touchAll_app (P : list UpsertArgs) (a : UpsertArgs) (x : Employee) :
  touchAll (P ++ [a]) x = touch a (touchAll P x).
Proof. unfold touchAll. rewrite fold_left_app. reflexivity. Qed.

Lemma touchAll_selects (L P : list UpsertArgs) (b : UpsertArgs) :
  stableOps L -> incl P L -> In b L ->
  forall z, selects (where_ b) (touchAll P z) = selects (where_ b) z.
Proof.
  intros St. induction P as [|a P IH]; intros Hi Hb z; [reflexivity|].
  simpl. rewrite IH; [|intros x Hx; apply Hi; right; exact Hx|exact Hb].
  unfold touch. destruct (selects (where_ a) z); [|reflexivity].
  apply St; [exact Hb|apply Hi; left; reflexivity].
Qed.

(** Two rows that an update [u] cannot tell apart stay so under upserts. *)
Lemma touchAll_agree (L P : list UpsertArgs) (u : UpdateData) :
  stableOps L -> incl P L ->
  forall z1 z2,
    (forall b, In b L -> selects (where_ b) z1 = selects (where_ b) z2) ->
    (u_email u = None -> e_email z1 = e_email z2) ->
    (u_employeeNum u = None -> e_employeeNum z1 = e_employeeNum z2) ->
    (u_email u = None -> e_email (touchAll P z1) = e_email (touchAll P z2))
    /\ (u_employeeNum u = None ->
        e_employeeNum (touchAll P z1) = e_employeeNum (touchAll P z2)).
Proof.
  intros St. induction P as [|a P IH]; intros Hi z1 z2 Hs He Hn; [split; assumption|].
  assert (Ha : In a L) by (apply Hi; left; reflexivity).
  assert (Hi' : incl P L) by (intros x Hx; apply Hi; right; exact Hx).
  simpl. apply (IH Hi').
  - intros b Hb. unfold touch. rewrite (Hs a Ha).
    destruct (selects (where_ a) z2); [|apply Hs; exact Hb].
    rewrite !(St b a Hb Ha). apply Hs. exact Hb.
  - intros E. unfold touch. rewrite (Hs a Ha).
    destruct (selects (where_ a) z2); [|apply He; exact E].
    simpl. rewrite (He E). reflexivity.
  - intros E. unfold touch. rewrite (Hs a Ha).
    destruct (selects (where_ a) z2); [|apply Hn; exact E].
    simpl. rewrite (Hn E). reflexivity.
Qed.

(** An update absorbs an earlier copy of itself. *)
Lemma applyUpdate_absorbs (L P : list UpsertArgs) (a : UpsertArgs) (x : Employee) :
  stableOps L -> incl P L -> In a L ->
  applyUpdate (update a) (touchAll P (applyUpdate (update a) x))
  = applyUpdate (update a) (touchAll P x).
Proof.
  intros St Hi Ha.
  destruct (touchAll_agree L P (update a) St Hi (applyUpdate (update a) x) x) as [H1 H2].
  - intros b Hb. apply St; assumption.
  - intros E. simpl. rewrite E. reflexivity.
  - intros E. simpl. rewrite E. reflexivity.
  - apply applyUpdate_agree; assumption.
Qed.

Lemma touchAll_unselected (P : list UpsertArgs) (c0 : Employee) :
  (forall b, In b P -> selects (where_ b) c0 = false) -> touchAll P c0 = c0.
Proof.
  induction P as [|a P IH]; intros H; [reflexivity|].
  simpl. unfold touch. rewrite (H a (or_introl eq_refl)).
  apply IH. intros b Hb. apply H. right. exact Hb.
Qed.

(** The first run.  After the upserts [P], every row of the store is left
    as it is by [P] done again, and every key of [P] selects a row. *)
Lemma transaction_settles (S : list UpsertArgs) :
  forall (P : list UpsertArgs) (d d' : Store),
    (forall a, In a (P ++ S)%list ->
       selects (where_ a) (create a) = true
       /\ applyUpdate (update a) (create a) = create a) ->
    stableOps (P ++ S)%list ->
    clashFree d ->
    (forall x, In x d -> touchAll P x = x) ->
    (forall b, In b P -> existsb (selects (where_ b)) d = true) ->
    transaction d (map Some S) = Some d' ->
    clashFree d'
    /\ (forall x, In x d' -> touchAll (P ++ S)%list x = x)
    /\ (forall b, In b (P ++ S)%list -> existsb (selects (where_ b)) d' = true).
Proof.
  induction S as [|a S IH]; intros P d d' Sh St Cf Fx Ks; simpl.
  - intros H. injection H as <-. rewrite app_nil_r. auto.
  - destruct (store_upsert d a) as [d1|] eqn:U; [|discriminate]. intros T.
    assert (E : (P ++ a :: S = (P ++ [a]) ++ S)%list) by (rewrite <- app_assoc; reflexivity).
    rewrite E in *.
    assert (Ha : In a ((P ++ [a]) ++ S)%list) by (apply in_or_app; left; apply in_or_app; right; left; reflexivity).
    assert (HP : incl P ((P ++ [a]) ++ S)%list) by (intros x Hx; apply in_or_app; left; apply in_or_app; left; exact Hx).
    destruct (Sh a Ha) as [Sh1 Sh2].
    destruct (store_upsert_step d d1 a Cf U) as [Cf1 [[Ex ->]|[Ex [Cl ->]]]].
    + apply (IH (P ++ [a])%list (map (touch a) d) d' Sh St Cf1); [| |exact T].
      * intros x1 Hx1. apply in_map_iff in Hx1. destruct Hx1 as [x [<- Hx]].
        rewrite touchAll_app. unfold touch at 2.
        destruct (selects (where_ a) x) eqn:Sx.
        -- unfold touch.
           rewrite (touchAll_selects _ P a St HP Ha), (St a a Ha Ha), Sx.
           rewrite (applyUpdate_absorbs _ P a x St HP Ha), (Fx x Hx). reflexivity.
        -- rewrite (Fx x Hx). unfold touch. rewrite Sx. reflexivity.
      * intros b Hb. apply existsb_exists.
        assert (Hb' : In b ((P ++ [a]) ++ S)%list) by (apply in_or_app; left; exact Hb).
        assert (G : existsb (selects (where_ b)) d = true).
        { apply in_app_or in Hb. destruct Hb as [Hb|[<-|[]]]; [apply Ks; exact Hb|exact Ex]. }
        apply existsb_exists in G. destruct G as [x [Hx Sx]].
        exists (touch a x). split; [apply in_map; exact Hx|].
        unfold touch. destruct (selects (where_ a) x); [|exact Sx].
        rewrite (St b a Hb' Ha). exact Sx.
    + apply (IH (P ++ [a])%list (d ++ [create a])%list d' Sh St Cf1); [| |exact T].
      * intros x1 Hx1. rewrite touchAll_app.
        apply in_app_or in Hx1. destruct Hx1 as [Hx|[<-|[]]].
        -- rewrite (Fx x1 Hx). unfold touch.
           rewrite (existsb_false_In _ _ x1 Ex Hx). reflexivity.
        -- rewrite touchAll_unselected.
           ++ unfold touch. rewrite Sh1. exact Sh2.
           ++ intros b Hb. destruct (selects (where_ b) (create a)) eqn:Sb; [|reflexivity].
              pose proof (Ks b Hb) as G. apply existsb_exists in G.
              destruct G as [x [Hx Sx]].
              rewrite <- (existsb_false_In _ _ x Cl Hx). symmetry.
              apply (selects_clash (where_ b)); assumption.
      * intros b Hb. rewrite existsb_app.
        apply in_app_or in Hb. destruct Hb as [Hb|[<-|[]]].
        -- rewrite (Ks b Hb). reflexivity.
        -- simpl. rewrite Sh1. rewrite orb_true_r. reflexivity.
Qed.

(** The second run.  When every key selects a row, the upserts only update. *)
Lemma transaction_updates (L S : list UpsertArgs) :
  stableOps L -> incl S L ->
  forall d d' : Store,
    clashFree d ->
    (forall b, In b S -> existsb (selects (where_ b)) d = true) ->
    transaction d (map Some S) = Some d' ->
    d' = map (touchAll S) d.
Proof.
  intros St. induction S as [|a S IH]; intros Hi d d' Cf Ks; simpl.
  - intros H. injection H as <-. symmetry. apply map_id.
  - destruct (store_upsert d a) as [d1|] eqn:U; [|discriminate]. intros T.
    assert (Ha : In a L) by (apply Hi; left; reflexivity).
    assert (Hi' : incl S L) by (intros x Hx; apply Hi; right; exact Hx).
    destruct (store_upsert_step d d1 a Cf U) as [Cf1 [[Ex ->]|[Ex _]]].
    + rewrite (IH Hi' (map (touch a) d) d' Cf1); [rewrite map_map; reflexivity| |exact T].
      intros b Hb. pose proof (Ks b (or_intror Hb)) as G.
      apply existsb_exists in G. destruct G as [x [Hx Sx]].
      apply existsb_exists. exists (touch a x). split; [apply in_map; exact Hx|].
      unfold touch. destruct (selects (where_ a) x); [|exact Sx].
      rewrite (St b a (Hi' b Hb) Ha). exact Sx.
    + rewrite (Ks a (or_introl eq_refl)) in Ex. discriminate.
Qed.

Lemma stable_transactions_idempotent (L : list UpsertArgs) (d d1 d2 : Store) :
  (forall a, In a L ->
     selects (where_ a) (create a) = true
     /\ applyUpdate (update a) (create a) = create a) ->
  stableOps L -> clashFree d ->
  transaction d (map Some L) = Some d1 ->
  transaction d1 (map Some L) = Some d2 ->
  d2 = d1.
Proof.
  intros Sh St Cf T1 T2.
  destruct (transaction_settles L [] d d1 Sh St Cf) as [Cf1 [Fx Ks]];
    [reflexivity|intros b []|exact T1|].
  simpl in Fx, Ks.
  rewrite (transaction_updates L L St (incl_refl L) d1 d2 Cf1 Ks T2).
  rewrite <- (map_id d1) at 2. apply map_ext_in. exact Fx.
Qed.

Lemma transaction_some (ops : list (option UpsertArgs)) :
  forall d d', transaction d ops = Some d' -> exists L, ops = map Some L.
Proof.
  induction ops as [|[a|] ops IH]; intros d d'; simpl.
  - exists []. reflexivity.
  - destruct (store_upsert d a) as [d1|]; [|discriminate].
    intros H. destruct (IH _ _ H) as [L ->]. exists (a :: L). reflexivity.
  - discriminate.
Qed.

Lemma transaction_app (ops1 ops2 : list (option UpsertArgs)) :
  forall d,
    transaction d (ops1 ++ ops2)%list
    = match transaction d ops1 with
      | Some d1 => transaction d1 ops2
      | None => None
      end.
Proof.
  induction ops1 as [|[a|] ops1 IH]; intros d; simpl; try reflexivity.
  destruct (store_upsert d a); [apply IH|reflexivity].
Qed.

(** The committed batches of a run are one transaction over their records. *)
Lemma upsertBatches_transaction (batches : list (list Cleaned)) :
  forall db n db' m,
    upsertBatches batches db n = Committed db' m ->
    transaction db (map upsertRequest (List.concat batches)) = Some db'.
Proof.
  induction batches as [|b bs IH]; intros db n db' m; simpl.
  - intros H. injection H as <- _. reflexivity.
  - rewrite map_app, transaction_app.
    destruct (transaction db (map upsertRequest b)); [|discriminate].
    apply IH.
Qed.

Lemma stableRecords_ops (cs : list Cleaned) (L : list UpsertArgs) :
  stableRecords cs -> map upsertRequest cs = map Some L ->
  stableOps L
  /\ forall a, In a L ->
       selects (where_ a) (create a) = true
       /\ applyUpdate (update a) (create a) = create a.
Proof.
  intros St E.
  assert (From : forall a, In a L -> exists c, In c cs /\ upsertRequest c = Some a).
  { intros a Ha. apply (in_map Some) in Ha. rewrite <- E in Ha.
    apply in_map_iff in Ha. destruct Ha as [c [Hc Hin]]. eauto. }
  split.
  - intros a b Ha Hb row.
    destruct (From a Ha) as [c1 [H1 E1]]. destruct (From b Hb) as [c2 [H2 E2]].
    apply (St c1 c2 a b H1 H2 E1 E2).
  - intros a Ha. destruct (From a Ha) as [c [_ Ec]].
    destruct (upsertRequest_shape c a Ec) as [_ H]. exact H.
Qed.

(** Two transactions over one list of records whose upserts leave each
    other's keys alone: the second changes nothing. *)
Lemma stable_records_idempotent (cs : list Cleaned) (d d1 d2 : Store) :
  stableRecords cs -> clashFree d ->
  transaction d (map upsertRequest cs) = Some d1 ->
  transaction d1 (map upsertRequest cs) = Some d2 ->
  d2 = d1.
Proof.
  intros St Cf T1 T2.
  destruct (transaction_some _ _ _ T1) as [L E].
  destruct (stableRecords_ops cs L St E) as [StL Sh].
  rewrite E in T1, T2.
  apply (stable_transactions_idempotent L d d1 d2 Sh StL Cf T1 T2).
Qed.

(** Records that are all keyed on their email leave each other's keys alone. *)
Lemma email_keyed_stable (cs : list Cleaned) :
  (forall c, In c cs -> truthy (email c) = true) -> stableRecords cs.
Proof.
  intros H c1 c2 a1 a2 H1 H2 E1 E2 row.
  pose proof (H c1 H1) as T1. pose proof (H c2 H2) as T2.
  unfold upsertRequest in E1, E2. rewrite T1 in E1. rewrite T2 in E2.
  destruct (firstName c1), (lastName c1), (email c1); try discriminate.
  destruct (firstName c2), (lastName c2), (email c2); try discriminate.
  injection E1 as <-. injection E2 as <-. reflexivity.
Qed.

Lemma slice_In {T : Type} (arr : list T) (i j : Z) (x : T) :
  In x (slice arr i j) -> In x arr.
Proof.
  unfold slice. intros H.
  match type of H with In _ (firstn ?n (skipn ?k _)) =>
    rewrite <- (firstn_skipn k arr); apply in_or_app; right;
    rewrite <- (firstn_skipn n (skipn k arr)); apply in_or_app; left; exact H
  end.
Qed.

(** The batches hold elements of the array only, whatever the size. *)
Lemma toBatches_loop_In {T : Type} (fuel : nat) :
  forall (arr : list T) (size : Z) (st : LoopState) (batches : list (list T)),
    toBatches_loop fuel arr size st = Some batches ->
    (forall x, In x (List.concat (snd st)) -> In x arr) ->
    forall x, In x (List.concat batches) -> In x arr.
Proof.
  induction fuel as [|fuel IH]; intros arr size [i out] batches; simpl;
    destruct (loopTest arr (i, out)); try discriminate.
  - intros H. injection H as <-. auto.
  - intros H Hout. apply (IH _ _ _ _ H). simpl.
    intros x Hx. rewrite concat_app in Hx. apply in_app_or in Hx.
    destruct Hx as [Hx|Hx]; [apply Hout; exact Hx|].
    simpl in Hx. rewrite app_nil_r in Hx. apply (slice_In _ _ _ _ Hx).
  - intros H. injection H as <-. auto.
Qed.

(** Two runs, as transactions: each run that returns a store is one
    transaction over the records of its batches, all of them accepted records
    of the input. *)
Lemma runOnce_transaction (fuel : nat) (rows : list Row) (db db1 : Store) :
  runOnce fuel rows db = Some db1 ->
  exists cs,
    (forall c, In c cs -> In c (accepted rows))
    /\ forall d d', runOnce fuel rows d = Some d' ->
                    transaction d (map upsertRequest cs) = Some d'.
Proof.
  unfold runOnce, main, accepted.
  destruct (cleanValidate rows 0 [] []) as [cleaned errors]. simpl fst. simpl negb.
  simpl andb. destruct (0 <? List.length cleaned)%nat.
  - destruct (toBatches fuel cleaned BATCH_SIZE) as [bs|] eqn:B; [|discriminate].
    intros _. exists (List.concat bs). split.
    + apply (toBatches_loop_In fuel cleaned BATCH_SIZE (0%Z, []) bs B). intros x [].
    + intros d d'. destruct (upsertBatches bs d 0) as [d1 m|d1] eqn:U; [|discriminate].
      simpl. intros H. injection H as <-. apply (upsertBatches_transaction bs d 0 d1 m U).
  - intros _. exists []. split; [intros c []|].
    intros d d'. simpl. intros H. injection H as <-. reflexivity.
Qed.

Lemma stableRecords_incl (cs cs' : list Cleaned) :
  (forall c, In c cs -> In c cs') -> stableRecords cs' -> stableRecords cs.
Proof.
  intros Hi St c1 c2 a1 a2 H1 H2. apply St; apply Hi; assumption.
Qed.

(** Two runs on one input whose upserts leave each other's keys alone, on a
    store with no clash: when both runs return, the second leaves the store
    as the first left it. *)
Theorem stable_runs_idempotent (fuel : nat) (rows : list Row) (db db1 db2 : Store) :
  clashFree db ->
  stableRecords (accepted rows) ->
  runOnce fuel rows db = Some db1 ->
  runOnce fuel rows db1 = Some db2 ->
  db2 = db1.
Proof.
  intros Cf St R1 R2.
  destruct (runOnce_transaction fuel rows db db1 R1) as [cs [Hi T]].
  apply (stable_records_idempotent cs db db1 db2).
  - apply (stableRecords_incl cs (accepted rows) Hi St).
  - exact Cf.
  - apply T. exact R1.
  - apply T. exact R2.
Qed.

(** The same for an input whose accepted records all have an email: they
    are all keyed on it. *)
Theorem email_keyed_runs_idempotent
        (fuel : nat) (rows : list Row) (db db1 db2 : Store) :
  clashFree db ->
  (forall c, In c (accepted rows) -> truthy (email c) = true) ->
  runOnce fuel rows db = Some db1 ->
  runOnce fuel rows db1 = Some db2 ->
  db2 = db1.
Proof.
  intros Cf He R1 R2.
  destruct (runOnce_transaction fuel rows db db1 R1) as [cs [Hi T]].
  apply (stable_records_idempotent cs db db1 db2).
  - apply email_keyed_stable. intros c Hc. apply He, Hi, Hc.
  - exact Cf.
  - apply T. exact R1.
  - apply T. exact R2.
Qed.

(** ** The profile of the input *)

Lemma Set_add_In (s : list string) (k x : string) :
  In x (Set_add s k) <-> In x s \/ x = k.
Proof.
  unfold Set_add. destruct (includes s k) eqn:E.
  - apply includes_In in E. split; [auto|]. intros [H| ->]; assumption.
  - rewrite in_app_iff. simpl. split.
    + intros [H|[H|[]]]; auto.
    + intros [H| ->]; auto.
Qed.

Lemma Set_add_NoDup (s : list string) (k : string) : NoDup s -> NoDup (Set_add s k).
Proof.
  intros H. unfold Set_add. destruct (includes s k) eqn:E; [exact H|].
  apply includes_not_In in E. apply NoDup_app; [exact H|repeat constructor; intros []|].
  intros x Hx [<-|[]]. contradiction.
Qed.

(** The keys of one row added to a set. *)
Lemma Set_add_keys (ks : list string) :
  forall s : list string,
    (NoDup s -> NoDup (fold_left Set_add ks s))
    /\ (forall x, In x (fold_left Set_add ks s) <-> In x s \/ In x ks)
    /\ exists rest, fold_left Set_add ks s = (s ++ rest)%list.
Proof.
  induction ks as [|k ks IH]; intros s; simpl.
  - split; [auto|]. split; [intros x; split; [auto|intros [H|[]]; exact H]|].
    exists []. rewrite app_nil_r. reflexivity.
  - destruct (IH (Set_add s k)) as [H1 [H2 [rest H3]]]. split; [|split].
    + intros H. apply H1, Set_add_NoDup, H.
    + intros x. rewrite H2, Set_add_In. split.
      * intros [[H|H]|H]; auto.
      * intros [H|[H|H]]; auto.
    + rewrite H3. unfold Set_add. destruct (includes s k).
      * exists rest. reflexivity.
      * exists (k :: rest). rewrite <- app_assoc. reflexivity.
Qed.

(** The keys of the rows of an array added to a set, row after row. *)
Lemma Set_add_rows {V : Type} (data : list (JsObject V)) :
  forall s : list string,
    let cols := fold_left (fun cols r => fold_left Set_add (Object_keys r) cols) data s in
    (NoDup s -> NoDup cols)
    /\ (forall x, In x cols <-> In x s \/ exists r, In r data /\ In x (Object_keys r))
    /\ exists rest, cols = (s ++ rest)%list.
Proof.
  induction data as [|r data IH]; intros s; simpl.
  - split; [auto|]. split.
    + intros x. split; [auto|]. intros [H|[r [[] _]]]. exact H.
    + exists []. rewrite app_nil_r. reflexivity.
  - destruct (Set_add_keys (Object_keys r) s) as [K1 [K2 [rest1 K3]]].
    destruct (IH (fold_left Set_add (Object_keys r) s)) as [H1 [H2 [rest2 H3]]].
    split; [|split].
    + intros H. apply H1, K1, H.
    + intros x. rewrite H2, K2. split.
      * intros [[H|H]|[r' [Hr Hx]]]; [left; exact H|right; exists r; auto|right; exists r'; auto].
      * intros [H|[r' [[<-|Hr] Hx]]]; [left; left; exact H|left; right; exact Hx|right; eauto].
    + rewrite H3, K3. exists (rest1 ++ rest2)%list. rewrite app_assoc. reflexivity.
Qed.

Lemma slice_first {T : Type} (arr : list T) (n : nat) :
  slice arr 0 (Z.of_nat n) = firstn n arr.
Proof.
  unfold slice. change (0 <? 0)%Z with false. cbv iota.
  destruct (Z.of_nat n <? 0)%Z eqn:E; [apply Z.ltb_lt in E; lia|].
  rewrite (Z.min_l 0) by lia. simpl skipn. rewrite Z.sub_0_r.
  destruct (Nat.le_gt_cases n (List.length arr)) as [H|H].
  - rewrite Z.min_l by lia. rewrite Nat2Z.id. reflexivity.
  - rewrite Z.min_r by lia. rewrite Nat2Z.id.
    rewrite !firstn_all2; [reflexivity|lia|lia].
Qed.

(** The profile of an array of objects.  [rows] is the length of the array.
    [cols] holds every key of every row once, and nothing else, in the order
    in which the keys first appear: the columns of an array are the first
    columns of any array it begins.  [sample] is the first five rows, and
    the whole array when it has five rows or fewer. *)
Theorem profile_columns {V : Type} (data : list (JsObject V)) :
  p_rows (profile data) = List.length data
  /\ NoDup (p_cols (profile data))
  /\ (forall k, In k (p_cols (profile data))
                <-> exists r, In r data /\ In k (Object_keys r))
  /\ (forall more, exists rest,
         p_cols (profile (data ++ more)) = (p_cols (profile data) ++ rest)%list)
  /\ p_sample (profile data) = firstn 5 data
  /\ ((List.length data <= 5)%nat -> p_sample (profile data) = data).
Proof.
  unfold profile. cbn [p_rows p_cols p_sample].
  destruct (Set_add_rows data []) as [H1 [H2 _]].
  split; [reflexivity|]. split; [apply H1; constructor|]. split.
  - intros k. rewrite H2. simpl. split; [intros [[]|H]; exact H|auto].
  - split; [|split].
    + intros more. rewrite fold_left_app.
      destruct (Set_add_rows more
                  (fold_left (fun cols r => fold_left Set_add (Object_keys r) cols) data []))
        as [_ [_ H3]].
      exact H3.
    + exact (slice_first data 5).
    + intros H. change 5%Z with (Z.of_nat 5). rewrite slice_first.
      apply firstn_all2. exact H.
Qed.

(** ** Strings: lowering and trimming *)

Lemma lowerChar_idempotent (c : ascii) : lowerChar (lowerChar c) = lowerChar c.
Proof. destruct c as [[] [] [] [] [] [] [] []]; reflexivity. Qed.

Lemma lowerChar_isWhiteSpace (c : ascii) : isWhiteSpace (lowerChar c) = isWhiteSpace c.
Proof. destruct c as [[] [] [] [] [] [] [] []]; reflexivity. Qed.

Lemma toLowerCase_idempotent (s : string) : toLowerCase (toLowerCase s) = toLowerCase s.
Proof.
  induction s as [|c s IH]; simpl; [reflexivity|].
  rewrite lowerChar_idempotent, IH. reflexivity.
Qed.

Lemma trimStart_toLowerCase (s : string) :
  trimStart (toLowerCase s) = toLowerCase (trimStart s).
Proof.
  induction s as [|c s IH]; simpl; [reflexivity|].
  rewrite lowerChar_isWhiteSpace. destruct (isWhiteSpace c); [exact IH|reflexivity].
Qed.

Lemma trimEnd_toLowerCase (s : string) :
  trimEnd (toLowerCase s) = toLowerCase (trimEnd s).
Proof.
  induction s as [|c s IH]; simpl; [reflexivity|].
  rewrite IH, lowerChar_isWhiteSpace.
  destruct (trimEnd s); simpl; [destruct (isWhiteSpace c)|]; reflexivity.
Qed.

(** Lowering and trimming commute, and the two together are idempotent. *)
Lemma trim_toLowerCase (s : string) : trim (toLowerCase s) = toLowerCase (trim s).
Proof. unfold trim. rewrite trimStart_toLowerCase, trimEnd_toLowerCase. reflexivity. Qed.

Lemma lower_trim_idempotent (s : string) :
  toLowerCase (trim (toLowerCase (trim s))) = toLowerCase (trim s).
Proof. rewrite trim_toLowerCase, trim_idempotent, toLowerCase_idempotent. reflexivity. Qed.

(** ** The messages of the validator *)

(** The violations of a record are some of the five messages, each at most
    once and in the order of the five rules.  The two rules on the hours
    exclude each other, so that a record has four violations at most.  A
    record with no key has the message of the key first.  The text of a
    rejection, its messages joined, is never empty. *)
Theorem validate_messages (c : Cleaned) :
  let rules := ["Missing unique key (email or employeeNum).";
                "Missing firstName."; "Missing lastName.";
                "hoursWorked cannot be negative.";
                "hoursWorked per record > 24 is not allowed."] in
  validate c = filter (includes (validate c)) rules
  /\ NoDup (validate c)
  /\ (List.length (validate c) <= 4)%nat
  /\ ~ (In "hoursWorked cannot be negative." (validate c)
        /\ In "hoursWorked per record > 24 is not allowed." (validate c))
  /\ (truthy (email c) = false -> truthy (employeeNum c) = false ->
      exists rest, validate c = "Missing unique key (email or employeeNum)." :: rest)
  /\ (validate c <> [] -> join "; " (validate c) <> "").
Proof.
  clear. intros rules. unfold rules, validate.
  destruct (ltb (hoursWorked c) 0) eqn:E1, (ltb 24 (hoursWorked c)) eqn:E2;
    try (apply ltb_lt in E1; apply ltb_lt in E2; exfalso; lra);
    destruct (truthy (email c)), (truthy (employeeNum c)), (truthy (firstName c)),
      (truthy (lastName c)); simpl;
    (split; [reflexivity|]);
    (split; [repeat constructor; simpl; intuition discriminate|]);
    (split; [lia|]);
    (split; [intros [H1 H2]; simpl in H1, H2; intuition discriminate|]);
    (split; [intros; try discriminate; eexists; reflexivity|]);
    intros H; try (exfalso; apply H; reflexivity); discriminate.
Qed.

(** ** The hours of the summary *)



(** The sum of the hours of a key is 0 exactly when every record of the key
    has no hours, the hours being none negative. *)
Lemma hoursOf_zero (k : Key) (rows : list Cleaned) :
  (forall c, In c rows -> (0 <= hoursWorked c)%Q) ->
  ((hoursOf k rows == 0)%Q
   <-> forall c, In c rows -> identityKey c = k -> (hoursWorked c == 0)%Q).
Proof.
  clear. unfold hoursOf.
  assert (G : forall acc, (0 <= acc)%Q ->
              (forall c, In c rows -> (0 <= hoursWorked c)%Q) ->
              ((fold_left (addHours k) rows acc == 0)%Q
               <-> (acc == 0)%Q
                   /\ forall c, In c rows -> identityKey c = k -> (hoursWorked c == 0)%Q)).
  { induction rows as [|r rows IH]; intros acc Ha Hall; simpl.
    - split; [intros H; split; [exact H|intros c []]|intros [H _]; exact H].
    - pose proof (Hall r (or_introl eq_refl)) as Hr.
      assert (Hall' : forall c, In c rows -> (0 <= hoursWorked c)%Q)
        by (intros c Hc; apply Hall; right; exact Hc).
      unfold addHours at 2. destruct (key_eqb (identityKey r) k) eqn:E.
      + apply key_eqb_eq in E.
        assert (Ha' : (0 <= acc + hoursWorked r)%Q) by lra.
        rewrite (IH _ Ha' Hall'). split.
        * intros [H1 H2]. split; [lra|]. intros c [<-|Hc] Hk; [lra|apply H2; assumption].
        * intros [H1 H2]. split; [|intros c Hc; apply H2; right; exact Hc].
          rewrite H1, (H2 r (or_introl eq_refl) E). reflexivity.
      + rewrite (IH _ Ha Hall'). split.
        * intros [H1 H2]. split; [exact H1|]. intros c [<-|Hc] Hk; [|apply H2; assumption].
          rewrite <- Hk, key_eqb_refl in E. discriminate.
        * intros [H1 H2]. split; [exact H1|]. intros c Hc. apply H2. right. exact Hc. }
  intros Hall. rewrite (G 0%Q (Qle_refl 0) Hall). split; [intros [_ H]; exact H|].
  intros H. split; [reflexivity|exact H].
Qed.


(** An employee fails the week exactly when none of the accepted records
    of its key has any hours, whatever the threshold: an entry is FAIL if
    and only if every accepted record of its key has 0 hours. *)
Theorem fail_iff_no_hours (rows : list Row) (e : WeeklyEntry) :
  In e (weeklySummary (accepted rows)) ->
  (status e = FAIL
   <-> forall c, In c (accepted rows) -> identityKey c = key e -> (hoursWorked c == 0)%Q).
Proof.
  intros H. destruct (summary_entry rows e H) as [He _].
  rewrite <- (hoursOf_zero (key e) (accepted rows))
    by (intros c Hc; apply (accepted_hours rows c Hc)).
  assert (St : status e
               = if Qeq_bool (hoursOf (key e) (accepted rows)) 0 then FAIL
                 else if ltb 0 (hoursOf (key e) (accepted rows))
                         && ltb (hoursOf (key e) (accepted rows)) EXPECTED_WEEKLY_HOURS
                      then WARN else PASS)
    by (rewrite He at 1; reflexivity).
  rewrite St.
  destruct (Qeq_bool (hoursOf (key e) (accepted rows)) 0) eqn:E.
  - apply Qeq_bool_iff in E. split; [intros _; exact E|reflexivity].
  - apply Qeq_bool_neq in E. split; [|intros H'; contradiction].
    destruct (ltb 0 (hoursOf (key e) (accepted rows))
              && ltb (hoursOf (key e) (accepted rows)) EXPECTED_WEEKLY_HOURS);
      discriminate.
Qed.

(** Against a threshold of zero or less no entry is WARN: an entry is FAIL
    when its total is 0, though that total reaches the threshold, and PASS
    when its total is positive. *)
Theorem summary_nonpositive_threshold (rows : list Row) (e : WeeklyEntry) :
  (EXPECTED_WEEKLY_HOURS <= 0)%Q ->
  In e (weeklySummary (accepted rows)) ->
  status e <> WARN
  /\ (status e = FAIL <-> (total_hours e == 0)%Q)
  /\ (status e = PASS <-> (0 < total_hours e)%Q).
Proof.
  intros HE H. destruct (summary_entry rows e H) as [He [H2 H0]].
  assert (T : (total_hours e == hoursOf (key e) (accepted rows))%Q)
    by (rewrite He at 1; simpl; apply twoDecimals_round; exact H2).
  assert (St : status e
               = if Qeq_bool (hoursOf (key e) (accepted rows)) 0 then FAIL
                 else if ltb 0 (hoursOf (key e) (accepted rows))
                         && ltb (hoursOf (key e) (accepted rows)) EXPECTED_WEEKLY_HOURS
                      then WARN else PASS)
    by (rewrite He at 1; reflexivity).
  rewrite T, St.
  destruct (Qeq_bool (hoursOf (key e) (accepted rows)) 0) eqn:E.
  - apply Qeq_bool_iff in E.
    split; [discriminate|]. split; [tauto|]. split; [discriminate|lra].
  - apply Qeq_bool_neq in E.
    destruct (ltb (hoursOf (key e) (accepted rows)) EXPECTED_WEEKLY_HOURS) eqn:E2;
      [apply ltb_lt in E2; lra|].
    rewrite andb_false_r.
    split; [discriminate|]. split; [split; [discriminate|contradiction]|].
    split; [intros _; lra|reflexivity].
Qed.

(** The request of a record with no violation, on each path. *)
Lemma upsertRequest_email (c : Cleaned) :
  validate c = [] -> truthy (email c) = true ->
  exists e fn ln,
    email c = Some e /\ firstName c = Some fn /\ lastName c = Some ln
    /\ upsertRequest c
       = Some (mkUpsert
                 (ByEmail e)
                 (mkUpdate fn ln (department c) (role c) (hoursWorked c) (active c)
                           (employeeNum c) None)
                 (mkEmployee e (employeeNum c) fn ln (department c) (role c)
                             (hoursWorked c) (active c))).
Proof.
  intros V T. apply validate_nil in V. destruct V as [_ [Hf [Hl _]]].
  unfold upsertRequest. rewrite T.
  destruct (firstName c) as [fn|]; [|discriminate].
  destruct (lastName c) as [ln|]; [|discriminate].
  destruct (email c) as [e|]; [|discriminate].
  exists e, fn, ln. auto.
Qed.



(** ** The counts of a run *)

Lemma tally_partition (l : list WeeklyEntry) :
  (tally PASS l + tally WARN l + tally FAIL l = List.length l)%nat.
Proof.
  clear. unfold tally. induction l as [|e l IH]; simpl; [reflexivity|].
  destruct (status e); simpl; lia.
Qed.

Lemma map_set_length (m : JsMap) (k : Key) (v : Q) :
  (List.length (map_set m k v) <= S (List.length m))%nat.
Proof.
  clear. induction m as [|[k' v'] m IH]; simpl; [lia|].
  destruct (key_eqb k k'); simpl; lia.
Qed.

Lemma weeklySummary_length (rows : list Cleaned) :
  (List.length (weeklySummary rows) <= List.length rows)%nat.
Proof.
  unfold weeklySummary, totals. rewrite length_map.
  assert (G : forall m : JsMap,
             (List.length (fold_left accumulate rows m)
              <= List.length m + List.length rows)%nat).
  { induction rows as [|r rows IH]; intros m; simpl; [lia|].
    pose proof (IH (accumulate m r)) as H.
    assert (H2 : (List.length (accumulate m r) <= S (List.length m))%nat)
      by apply map_set_length.
    lia. }
  apply (G []).
Qed.

(** More fuel does not change what the loop returns. *)
Lemma toBatches_loop_more {T : Type} (fuel : nat) :
  forall (arr : list T) (size : Z) (st : LoopState) (bs : list (list T)) (extra : nat),
    toBatches_loop fuel arr size st = Some bs ->
    toBatches_loop (fuel + extra) arr size st = Some bs.
Proof.
  induction fuel as [|fuel IH]; intros arr size st bs extra; simpl.
  - destruct (loopTest arr st) eqn:E; [discriminate|].
    intros H. destruct extra; simpl; rewrite E; exact H.
  - destruct (loopTest arr st); [apply IH|auto].
Qed.

(** Whenever the batcher returns, whatever the size and the fuel, its
    batches put end to end are the array. *)
Lemma toBatches_some_concat {T : Type} (fuel : nat) (arr : list T) (size : Z)
      (bs : list (list T)) :
  toBatches fuel arr size = Some bs -> List.concat bs = arr.
Proof.
  intros H. destruct arr as [|x arr].
  - destruct fuel; simpl in H; injection H as <-; reflexivity.
  - destruct (Z.le_gt_cases size 0) as [Hs|Hs].
    + unfold toBatches in H.
      rewrite toBatches_loop_stuck in H; [discriminate|exact Hs|discriminate|simpl; lia].
    + apply (toBatches_loop_more fuel _ _ _ _ (List.length (x :: arr))) in H.
      destruct (toBatches_concat (x :: arr) size (fuel + List.length (x :: arr)))
        as [bs' [H1 H2]]; [lia|lia|].
      unfold toBatches in H1. rewrite H in H1. injection H1 as <-. exact H2.
Qed.

(** The counts a run reports, when it returns, the batch size an integer.
    Every row of the input is either valid or rejected; the run upserts no
    record when it is a dry run and every valid record otherwise; the PASS,
    WARN and FAIL counts add up to the number of entries of the summary,
    which has no more entries than there are valid records. *)
Theorem report_counts (fuel : nat) (dry : bool) (rows : list Row) (db : Store)
        (rep : Report) :
  main fuel dry rows db = Returned rep ->
  loaded rep = List.length rows
  /\ (valid rep + List.length (rejections rep) = loaded rep)%nat
  /\ success rep = (if dry then 0%nat else valid rep)
  /\ (n_pass rep + n_warn rep + n_fail rep = List.length (entries rep))%nat
  /\ (List.length (entries rep) <= valid rep)%nat.
Proof.
  unfold main. pose proof (cleanValidate_length rows 0 [] []) as L.
  destruct (cleanValidate rows 0 [] []) as [cleaned errors]. simpl in L.
  assert (Fin : forall d n,
             n = (if dry then 0%nat else List.length cleaned) ->
             Returned (mkReport (List.length rows) (List.length cleaned) errors d n
                                (weeklySummary cleaned)
                                (tally PASS (weeklySummary cleaned))
                                (tally WARN (weeklySummary cleaned))
                                (tally FAIL (weeklySummary cleaned))) = Returned rep ->
             loaded rep = List.length rows
             /\ (valid rep + List.length (rejections rep) = loaded rep)%nat
             /\ success rep = (if dry then 0%nat else valid rep)
             /\ (n_pass rep + n_warn rep + n_fail rep = List.length (entries rep))%nat
             /\ (List.length (entries rep) <= valid rep)%nat).
  { intros d n Hn H. injection H as <-. simpl.
    split; [reflexivity|]. split; [exact L|]. split; [exact Hn|].
    split; [apply tally_partition|apply weeklySummary_length]. }
  destruct dry; simpl negb; simpl andb.
  - apply Fin. reflexivity.
  - destruct (0 <? List.length cleaned)%nat eqn:E0.
    + destruct (toBatches fuel cleaned BATCH_SIZE) as [bs|] eqn:B; [|discriminate].
      destruct (upsertBatches bs db 0) as [db' n|db'] eqn:U; [|discriminate].
      apply Fin. apply upsertBatches_success in U.
      rewrite U, (toBatches_some_concat _ _ _ _ B). reflexivity.
    + apply Fin. apply Nat.ltb_ge in E0. lia.
Qed.

(** ** What a run leaves in the store *)

(** The two branches of an accepted upsert. *)
Lemma store_upsert_cases (db db' : Store) (a : UpsertArgs) :
  store_upsert db a = Some db' ->
  (exists before e after,
      db = (before ++ e :: after)%list
      /\ selects (where_ a) e = true
      /\ existsb (clash (applyUpdate (update a) e)) (before ++ after)%list = false
      /\ db' = (before ++ applyUpdate (update a) e :: after)%list)
  \/ (forallb (fun x => negb (selects (where_ a) x)) db = true
      /\ existsb (clash (create a)) db = false
      /\ db' = (db ++ [create a])%list).
Proof.
  unfold store_upsert.
  destruct (findRow (where_ a) db) as [[[before e] after]|] eqn:F.
  - apply findRow_some in F. destruct F as [-> [He _]].
    destruct (existsb (clash (applyUpdate (update a) e)) (before ++ after)%list) eqn:C;
      [discriminate|].
    intros H. injection H as <-. left. exists before, e, after. auto.
  - apply findRow_none in F.
    destruct (existsb (clash (create a)) db) eqn:C; [discriminate|].
    intros H. injection H as <-. right. auto.
Qed.


(** The batches a run commits before one is refused. *)
Lemma upsertBatches_thrown (batches : list (list Cleaned)) :
  forall (db : Store) (n : nat) (db' : Store),
    upsertBatches batches db n = Thrown db' ->
    exists done failing rest,
      batches = (done ++ failing :: rest)%list
      /\ transaction db (map upsertRequest (List.concat done)) = Some db'
      /\ transaction db' (map upsertRequest failing) = None.
Proof.
  induction batches as [|b bs IH]; intros db n db'; simpl; [discriminate|].
  destruct (transaction db (map upsertRequest b)) as [d1|] eqn:T.
  - intros H. destruct (IH _ _ _ H) as [done [failing [rest [-> [H1 H2]]]]].
    exists (b :: done), failing, rest. split; [reflexivity|]. split; [|exact H2].
    simpl. rewrite map_app, transaction_app, T. exact H1.
  - intros H. injection H as <-. exists [], b, bs. auto.
Qed.

(** A run that returns is one transaction over the accepted records. *)
Lemma runOnce_accepted (fuel : nat) (rows : list Row) (db db' : Store) :
  runOnce fuel rows db = Some db' ->
  transaction db (map upsertRequest (accepted rows)) = Some db'.
Proof.
  unfold runOnce, main, accepted.
  destruct (cleanValidate rows 0 [] []) as [cleaned errors]. simpl fst. simpl negb.
  simpl andb. destruct (0 <? List.length cleaned)%nat eqn:E0.
  - destruct (toBatches fuel cleaned BATCH_SIZE) as [bs|] eqn:B; [|discriminate].
    destruct (upsertBatches bs db 0) as [d1 m|d1] eqn:U; [|discriminate].
    simpl. intros H. injection H as <-.
    rewrite <- (toBatches_some_concat _ _ _ _ B).
    apply (upsertBatches_transaction bs db 0 d1 m U).
  - apply Nat.ltb_ge in E0. destruct cleaned; [|simpl in E0; lia].
    simpl. intros H. injection H as <-. reflexivity.
Qed.

(** A batch is all or nothing, and a run is not.  When the store refuses a
    batch, the run ends there: it was not a dry run, the batches before the
    refused one stay in the store, as one transaction over their records,
    the refused batch leaves nothing, and the batches after it are never
    sent. *)
Theorem aborted_run_keeps_batches (fuel : nat) (dry : bool) (rows : list Row)
        (db db' : Store) :
  main fuel dry rows db = Aborted db' ->
  dry = false
  /\ exists done failing rest,
       toBatches fuel (accepted rows) BATCH_SIZE = Some (done ++ failing :: rest)%list
       /\ accepted rows = (List.concat done ++ failing ++ List.concat rest)%list
       /\ transaction db (map upsertRequest (List.concat done)) = Some db'
       /\ transaction db' (map upsertRequest failing) = None.
Proof.
  unfold main, accepted.
  destruct (cleanValidate rows 0 [] []) as [cleaned errors]. simpl fst.
  destruct dry; simpl negb; simpl andb; [discriminate|].
  destruct (0 <? List.length cleaned)%nat; [|discriminate].
  destruct (toBatches fuel cleaned BATCH_SIZE) as [bs|] eqn:B; [|discriminate].
  destruct (upsertBatches bs db 0) as [d1 m|d1] eqn:U; [discriminate|].
  intros H. injection H as <-. split; [reflexivity|].
  destruct (upsertBatches_thrown bs db 0 d1 U) as [done [failing [rest [-> [H1 H2]]]]].
  exists done, failing, rest. split; [reflexivity|]. split; [|auto].
  rewrite <- (toBatches_some_concat _ _ _ _ B), concat_app. reflexivity.
Qed.



(** A row after no update at all, after two rounds of updates, and after
    updates of a part of the requests. *)
Lemma rowAfter_refl (ops : list (option UpsertArgs)) (x : Employee) : rowAfter ops x x.
Proof. exists []. split; [intros a []|reflexivity]. Qed.

Lemma rowAfter_trans (ops1 ops2 : list (option UpsertArgs)) (x y z : Employee) :
  rowAfter ops1 x y -> rowAfter ops2 y z -> rowAfter (ops1 ++ ops2)%list x z.
Proof.
  intros [us1 [H1 ->]] [us2 [H2 ->]]. exists (us1 ++ us2)%list. split.
  - intros a Ha. apply in_or_app. apply in_app_or in Ha.
    destruct Ha as [Ha|Ha]; [left; apply H1|right; apply H2]; exact Ha.
  - rewrite fold_left_app. reflexivity.
Qed.

Lemma rowAfter_incl (ops ops' : list (option UpsertArgs)) (x y : Employee) :
  incl ops ops' -> rowAfter ops x y -> rowAfter ops' x y.
Proof.
  intros Hi [us [H ->]]. exists us. split; [|reflexivity].
  intros a Ha. apply Hi, H, Ha.
Qed.

Lemma Forall2_compose {A : Type} (P Q R : A -> A -> Prop) :
  (forall x y z, P x y -> Q y z -> R x z) ->
  forall l1 l2 l3, Forall2 P l1 l2 -> Forall2 Q l2 l3 -> Forall2 R l1 l3.
Proof.
  intros H l1 l2 l3 H1. revert l3.
  induction H1 as [|x y l1 l2 Hxy _ IH]; intros l3 H2; inversion H2; subst; constructor.
  - eapply H; eassumption.
  - apply IH. assumption.
Qed.

Lemma Forall2_image {A : Type} (P P' : A -> Prop) (Q : A -> A -> Prop) :
  (forall x y, P x -> Q x y -> P' y) ->
  forall l l', Forall2 Q l l' -> Forall P l -> Forall P' l'.
Proof.
  intros H l l' H2. induction H2 as [|x y l l' Hxy _ IH]; intros HP; constructor;
    inversion HP; subst.
  - eapply H; eassumption.
  - apply IH. assumption.
Qed.

Lemma keepsRows_refl (ops : list (option UpsertArgs)) (db : Store) : keepsRows ops db db.
Proof.
  exists db, []. split; [rewrite app_nil_r; reflexivity|]. split; [|split].
  - induction db; constructor; [apply rowAfter_refl|assumption].
  - constructor.
  - simpl. lia.
Qed.

Lemma keepsRows_trans (ops1 ops2 : list (option UpsertArgs)) (db d1 d2 : Store) :
  keepsRows ops1 db d1 -> keepsRows ops2 d1 d2 -> keepsRows (ops1 ++ ops2)%list db d2.
Proof.
  intros [k1 [c1 [-> [K1 [C1 L1]]]]] [k2 [c2 [-> [K2 [C2 L2]]]]].
  apply Forall2_app_inv_l in K2. destruct K2 as [k1' [c1' [K2 [K3 ->]]]].
  exists k1', (c1' ++ c2)%list. split; [rewrite app_assoc; reflexivity|].
  split; [|split].
  - apply (Forall2_compose (rowAfter ops1) (rowAfter ops2) _
                           (rowAfter_trans ops1 ops2) db k1 k1' K1 K2).
  - apply Forall_app. split.
    + refine (Forall2_image _ _ (rowAfter ops2) _ c1 c1' K3 C1).
      intros x y [a [Ha Hx]] Hy. exists a.
      split; [apply in_or_app; left; exact Ha|].
      apply (rowAfter_trans ops1 ops2 _ x y Hx Hy).
    + revert C2. apply Forall_impl.
      intros y [a [Ha Hy]]. exists a. split; [apply in_or_app; right; exact Ha|].
      apply (rowAfter_incl ops2); [apply incl_appr, incl_refl|exact Hy].
  - apply Forall2_length in K3. rewrite !length_app. lia.
Qed.

(** An accepted upsert keeps every row at its place: it updates one row, or
    adds its [create] row after them. *)
Lemma store_upsert_keeps (db db' : Store) (a : UpsertArgs) :
  store_upsert db a = Some db' -> keepsRows [Some a] db db'.
Proof.
  intros U.
  assert (Same : forall l : Store, Forall2 (rowAfter [Some a]) l l)
    by (induction l; constructor; [apply rowAfter_refl|assumption]).
  destruct (store_upsert_cases db db' a U)
    as [[before [e [after [-> [_ [_ ->]]]]]]|[_ [_ ->]]].
  - exists (before ++ applyUpdate (update a) e :: after)%list, [].
    split; [rewrite app_nil_r; reflexivity|]. split; [|split].
    + apply Forall2_app; [apply Same|]. constructor; [|apply Same].
      exists [a]. split; [intros x [<-|[]]; left; reflexivity|reflexivity].
    + constructor.
    + simpl. lia.
  - exists db, [create a]. split; [reflexivity|]. split; [apply Same|]. split.
    + constructor; [|constructor]. exists a. split; [left; reflexivity|apply rowAfter_refl].
    + simpl. lia.
Qed.

Lemma transaction_keeps (ops : list (option UpsertArgs)) :
  forall db db' : Store, transaction db ops = Some db' -> keepsRows ops db db'.
Proof.
  induction ops as [|[a|] ops IH]; intros db db'; simpl.
  - intros H. injection H as <-. apply keepsRows_refl.
  - destruct (store_upsert db a) as [d1|] eqn:U; [|discriminate].
    intros H. apply (keepsRows_trans [Some a] ops db d1 db').
    + apply store_upsert_keeps. exact U.
    + apply IH. exact H.
  - discriminate.
Qed.

Lemma keepsRows_length (ops : list (option UpsertArgs)) (db db' : Store) :
  keepsRows ops db db' ->
  (List.length db <= List.length db' <= List.length db + List.length ops)%nat.
Proof.
  intros [kept [created [-> [K [_ L]]]]]. apply Forall2_length in K.
  rewrite length_app. lia.
Qed.

(** A run never deletes a row.  Whether it returns or is ended by a refused
    batch, the store it leaves holds every row the store had, at its place:
    the row as it was, or as upserts of the run updated it.  After them come
    the rows the run created, one per accepted record at most, each the
    [create] row of an upsert of the run, as later upserts left it. *)
Theorem run_never_deletes (fuel : nat) (dry : bool) (rows : list Row) (db : Store) :
  let ops := map upsertRequest (accepted rows) in
  match main fuel dry rows db with
  | Returned rep =>
      keepsRows ops db (db_after rep)
      /\ (List.length db <= List.length (db_after rep) <= List.length db + valid rep)%nat
  | Aborted db' =>
      keepsRows ops db db'
      /\ (List.length db <= List.length db'
          <= List.length db + List.length (accepted rows))%nat
  | OutOfFuel => True
  end.
Proof.
  intros ops.
  assert (G : forall db' : Store,
             keepsRows ops db db' ->
             keepsRows ops db db'
             /\ (List.length db <= List.length db'
                 <= List.length db + List.length (accepted rows))%nat).
  { intros db' K. split; [exact K|].
    apply keepsRows_length in K. unfold ops in K. rewrite length_map in K. exact K. }
  unfold ops in *. clear ops. revert G. unfold main, accepted.
  destruct (cleanValidate rows 0 [] []) as [cleaned errors]. simpl fst. intros G.
  destruct (negb dry && (0 <? List.length cleaned)%nat).
  - destruct (toBatches fuel cleaned BATCH_SIZE) as [bs|] eqn:B; [|exact I].
    apply toBatches_some_concat in B.
    destruct (upsertBatches bs db 0) as [d1 m|d1] eqn:U.
    + simpl. apply G. apply transaction_keeps.
      rewrite <- B. apply (upsertBatches_transaction bs db 0 d1 m U).
    + destruct (upsertBatches_thrown bs db 0 d1 U) as [done [failing [rest [-> [T _]]]]].
      apply G. rewrite <- B, concat_app, map_app.
      apply (keepsRows_trans _ _ db d1 d1); [|apply keepsRows_refl].
      apply transaction_keeps. exact T.
  - simpl. apply G. apply keepsRows_refl.
Qed.


(** The row an upsert keyed on an email leaves: it has that email and the
    fields of the record, and its employee number when the record has one. *)
Lemma email_upsert_row (c : Cleaned) (a : UpsertArgs) (e : string) (db db' : Store) :
  validate c = [] -> truthy (email c) = true -> email c = Some e ->
  upsertRequest c = Some a -> store_upsert db a = Some db' ->
  exists x, In x db' /\ e_email x = e /\ holds x c
            /\ forall n, employeeNum c = Some n -> e_employeeNum x = Some n.
Proof.
  intros V T E A U.
  destruct (upsertRequest_email c V T) as [e' [fn [ln [E' [Hf [Hl A']]]]]].
  rewrite E in E'. injection E' as <-. rewrite A in A'. injection A' as ->.
  destruct (store_upsert_cases _ _ _ U)
    as [[before [e0 [after [-> [S0 [_ ->]]]]]]|[_ [_ ->]]].
  - eexists. split; [apply in_or_app; right; left; reflexivity|].
    simpl in S0. apply String.eqb_eq in S0. unfold holds, applyUpdate. simpl.
    rewrite Hf, Hl. repeat split; auto.
    intros n Hn. rewrite Hn. reflexivity.
  - eexists. split; [apply in_or_app; right; left; reflexivity|].
    unfold holds. simpl. rewrite Hf, Hl. repeat split; auto.
Qed.




Lemma same_number_transaction (c1 c2 : Cleaned) (n : string) (db : Store) :
  validate c1 = [] -> validate c2 = [] ->
  truthy (email c1) = true -> truthy (email c2) = true ->
  email c1 <> email c2 ->
  employeeNum c1 = Some n -> employeeNum c2 = Some n ->
  transaction db [upsertRequest c1; upsertRequest c2] = None.
Proof.
  intros V1 V2 T1 T2 Ne N1 N2. simpl.
  destruct (upsertRequest_email _ V1 T1) as [e1 [fn1 [ln1 [E1 [_ [_ A1]]]]]].
  destruct (upsertRequest_email _ V2 T2) as [e2 [fn2 [ln2 [E2 [_ [_ A2]]]]]].
  rewrite A1.
  destruct (store_upsert db _) as [d1|] eqn:U1; [|reflexivity].
  destruct (email_upsert_row _ _ e1 db d1 V1 T1 E1 A1 U1) as [x [Hx [Ex [_ Hn]]]].
  specialize (Hn n N1).
  rewrite A2.
  destruct (store_upsert d1 _) as [d2|] eqn:U2; [exfalso|reflexivity].
  assert (Ee : e2 <> e1) by (intros ->; apply Ne; congruence).
  destruct (store_upsert_cases _ _ _ U2)
    as [[before [e0 [after [-> [S0 [C _]]]]]]|[_ [C _]]].
  - simpl in S0. apply String.eqb_eq in S0.
    assert (Hx' : In x (before ++ after)%list).
    { apply in_app_or in Hx. apply in_or_app.
      destruct Hx as [Hx|[<-|Hx]]; [left; exact Hx| |right; exact Hx].
      exfalso. apply Ee. congruence. }
    pose proof (existsb_false_In _ _ x C Hx') as Cx.
    unfold clash, applyUpdate in Cx. simpl in Cx.
    rewrite N2, Hn, String.eqb_refl, orb_true_r in Cx. discriminate.
  - pose proof (existsb_false_In _ _ x C Hx) as Cx.
    unfold clash in Cx. simpl in Cx.
    rewrite N2, Hn, String.eqb_refl, orb_true_r in Cx. discriminate.
Qed.

(** Two records with different emails and one employee number, the empty
    string included, are never stored by one run: after the upsert of the
    first, the store refuses the upsert of the second, whatever it held
    before.  A run on the two rows, the batch size an integer, does not
    return. *)
Theorem same_employeeNum_refused (r1 r2 : Row) (n : string) :
  validate (clean r1) = [] -> validate (clean r2) = [] ->
  truthy (email (clean r1)) = true -> truthy (email (clean r2)) = true ->
  email (clean r1) <> email (clean r2) ->
  employeeNum (clean r1) = Some n -> employeeNum (clean r2) = Some n ->
  (forall db : Store,
      transaction db [upsertRequest (clean r1); upsertRequest (clean r2)] = None)
  /\ (forall (fuel : nat) (db : Store), runOnce fuel [r1; r2] db = None).
Proof.
  intros V1 V2 T1 T2 Ne N1 N2.
  assert (Tr : forall db : Store,
             transaction db [upsertRequest (clean r1); upsertRequest (clean r2)] = None)
    by (intros db; apply (same_number_transaction _ _ n); assumption).
  split; [exact Tr|].
  intros fuel db. destruct (runOnce fuel [r1; r2] db) as [db'|] eqn:R; [|reflexivity].
  apply runOnce_accepted in R.
  assert (A : accepted [r1; r2] = [clean r1; clean r2]).
  { rewrite accepted_filter. cbn [map filter].
    rewrite (proj2 (noViolation_nil _) V1), (proj2 (noViolation_nil _) V2). reflexivity. }
  rewrite A in R. cbn [map] in R. rewrite Tr in R. discriminate.
Qed.

(** ** The batcher on every number *)

(** The index of the loop on an integer size is an integer. *)
Lemma toBatches_num_loop_integer {T : Type} (arr : list T) (s : Z) (fuel : nat) :
  forall (x : Q) (out : list (list T)),
    Qden x = 1%positive ->
    toBatches_num_loop fuel arr (Finite (inject_Z s)) (Finite x) out
    = toBatches_loop fuel arr s (Qnum x, out).
Proof.
  induction fuel as [|fuel IH]; intros x out Hd;
    cbn [toBatches_num_loop toBatches_loop num_ltb]; unfold loopTest; cbn [fst snd];
    assert (E : ltb x (inject_Z (Z.of_nat (List.length arr)))
                = (Qnum x <? Z.of_nat (List.length arr))%Z)
      by (destruct (Qnum x <? Z.of_nat (List.length arr))%Z eqn:L;
          [apply ltb_lt; apply Z.ltb_lt in L|apply ltb_ge; apply Z.ltb_ge in L];
          unfold Qlt, Qle; simpl; rewrite Hd; lia);
    rewrite E; destruct (Qnum x <? Z.of_nat (List.length arr))%Z; try reflexivity.
  cbn [num_add loopStep].
  assert (D : Qden (x + inject_Z s) = 1%positive) by (simpl; rewrite Hd; reflexivity).
  assert (N : Qnum (x + inject_Z s) = (Qnum x + s)%Z) by (simpl; rewrite Hd; lia).
  rewrite (IH _ _ D), N. f_equal. f_equal. f_equal.
  unfold slice_num, slice. cbn [ToIntegerOrInfinity relativeIndex].
  rewrite D, Hd, N, !Z.quot_1_r. reflexivity.
Qed.

(** On an integer size the batcher on numbers is the batcher on integers. *)
Lemma toBatches_num_integer {T : Type} (arr : list T) (s : Z) (fuel : nat) :
  toBatches_num fuel arr (Finite (inject_Z s)) = toBatches fuel arr s.
Proof.
  unfold toBatches_num, toBatches.
  exact (toBatches_num_loop_integer arr s fuel 0 [] eq_refl).
Qed.

Lemma toBatches_num_loop_down {T : Type} (arr : list T) (fuel : nat) :
  arr <> [] ->
  forall out : list (list T),
    toBatches_num_loop fuel arr (Infinity true) (Infinity true) out = None.
Proof.
  intros Ha. induction fuel as [|fuel IH]; intros out; simpl; [reflexivity|apply IH].
Qed.

Lemma toBatches_num_loop_stuck {T : Type} (arr : list T) (q : Q) (fuel : nat) :
  arr <> [] -> (q <= 0)%Q ->
  forall (x : Q) (out : list (list T)),
    (x <= 0)%Q -> toBatches_num_loop fuel arr (Finite q) (Finite x) out = None.
Proof.
  intros Ha Hq. induction fuel as [|fuel IH]; intros x out Hx;
    cbn [toBatches_num_loop num_ltb];
    assert (E : ltb x (inject_Z (Z.of_nat (List.length arr))) = true)
      by (apply ltb_lt; destruct arr as [|a arr]; [contradiction|];
          assert (L : (inject_Z 0 < inject_Z (Z.of_nat (List.length (a :: arr))))%Q)
            by (rewrite <- Zlt_Qlt; simpl; lia);
          change (inject_Z 0) with 0%Q in L; lra);
    rewrite E; [reflexivity|].
  cbn [num_add]. apply IH. lra.
Qed.

(** The batcher on a size that is no positive number, for the accepted
    records of a run.  With NaN, which is what [Number] makes of a text that
    is no number, the loop runs once and returns one empty batch: the
    upsert stage then sends one empty transaction, the store is left as it
    was and no record is counted.  With [Infinity] it returns one batch,
    the whole array.  With [-Infinity], or a finite size of zero or less,
    whole or not, it never returns. *)
Theorem toBatches_num_other_sizes (cleaned : list Cleaned) :
  cleaned <> [] ->
  (forall (fuel : nat) (db : Store),
      toBatches_num (S fuel) cleaned NaN = Some [[]]
      /\ upsertBatches [[]] db 0 = Committed db 0)
  /\ (forall fuel : nat, toBatches_num (S fuel) cleaned (Infinity false) = Some [cleaned])
  /\ (forall fuel : nat, toBatches_num fuel cleaned (Infinity true) = None)
  /\ (forall (q : Q) (fuel : nat),
         (q <= 0)%Q -> toBatches_num fuel cleaned (Finite q) = None).
Proof.
  intros Ha.
  assert (E : ltb 0 (inject_Z (Z.of_nat (List.length cleaned))) = true).
  { apply ltb_lt. destruct cleaned as [|a arr]; [contradiction|].
    assert (L : (inject_Z 0 < inject_Z (Z.of_nat (List.length (a :: arr))))%Q)
      by (rewrite <- Zlt_Qlt; simpl; lia).
    exact L. }
  split; [|split; [|split]].
  - intros fuel db. split; [|reflexivity].
    unfold toBatches_num. cbn [toBatches_num_loop num_ltb]. rewrite E.
    cbn [num_add].
    assert (S : slice_num cleaned (Finite 0) NaN = []).
    { unfold slice_num. cbn [ToIntegerOrInfinity relativeIndex Qnum Qden].
      change (0 ÷ 1)%Z with 0%Z. change (0 <? 0)%Z with false. cbv iota.
      rewrite Z.min_l by lia. reflexivity. }
    rewrite S. destruct fuel; reflexivity.
  - intros fuel. unfold toBatches_num. cbn [toBatches_num_loop num_ltb]. rewrite E.
    cbn [num_add].
    assert (S : slice_num cleaned (Finite 0) (Infinity false) = cleaned).
    { unfold slice_num. cbn [ToIntegerOrInfinity relativeIndex Qnum Qden].
      change (0 ÷ 1)%Z with 0%Z. change (0 <? 0)%Z with false. cbv iota.
      rewrite Z.min_l by lia. rewrite Z.sub_0_r, Nat2Z.id. simpl skipn.
      apply firstn_all. }
    rewrite S. destruct fuel; reflexivity.
  - intros fuel. unfold toBatches_num. destruct fuel; cbn [toBatches_num_loop num_ltb];
      rewrite E; [reflexivity|].
    cbn [num_add]. apply toBatches_num_loop_down. exact Ha.
  - intros q fuel Hq. unfold toBatches_num.
    apply toBatches_num_loop_stuck; [exact Ha|exact Hq|lra].
Qed.

(** ** The number of batches *)

Lemma fullButLast_length {T : Type} (size : Z) (bs : list (list T)) :
  fullButLast size bs -> bs <> [] ->
  exists last : Z,
    (1 <= last <= size)%Z
    /\ Z.of_nat (List.length (List.concat bs))
       = (size * (Z.of_nat (List.length bs) - 1) + last)%Z.
Proof.
  induction bs as [|b bs IH]; intros H Hne; [contradiction|].
  destruct bs as [|b' bs].
  - simpl in H. exists (Z.of_nat (List.length b)). split; [exact H|].
    simpl. rewrite app_nil_r. lia.
  - destruct H as [Hb H]. destruct (IH H) as [last [Hl E]]; [discriminate|].
    exists last. split; [exact Hl|].
    change (List.concat (b :: b' :: bs)) with (b ++ List.concat (b' :: bs))%list.
    rewrite length_app, Nat2Z.inj_add, E, Hb.
    change (List.length (b :: b' :: bs)) with (S (List.length (b' :: bs))).
    rewrite Nat2Z.inj_succ. lia.
Qed.

(** A run sends as many transactions as the accepted records fill batches:
    with a size of at least one, [toBatches] returns the quotient of
    [arr.length] by the size, rounded up, and none for an empty array. *)
Theorem toBatches_count {T : Type} (arr : list T) (size : Z) (fuel : nat) :
  (1 <= size)%Z -> (List.length arr <= fuel)%nat ->
  exists batches,
    toBatches fuel arr size = Some batches
    /\ Z.of_nat (List.length batches)
       = ((Z.of_nat (List.length arr) + size - 1) / size)%Z
    /\ (arr = [] -> batches = []).
Proof.
  intros Hs Hf.
  destruct (toBatches_loop_spec fuel arr size 0 [] Hs) as [bs [H1 [H2 [_ [H4 [H5 _]]]]]];
    try lia.
  exists bs. split; [exact H1|]. simpl in H2.
  destruct bs as [|b bs].
  - split; [|reflexivity]. rewrite <- H2. simpl.
    symmetry. apply Z.div_small. lia.
  - split.
    + destruct (fullButLast_length size (b :: bs) H4) as [last [Hl E]]; [discriminate|].
      rewrite <- H2, E.
      apply (Z.div_unique _ _ _ (last - 1)); [left; lia|lia].
    + intros ->. destruct fuel; simpl in H1; discriminate.
Qed.

(** ** The CSV of the summary *)

Lemma append_assoc (a b c : string) : ((a ++ b) ++ c = a ++ (b ++ c))%string.
Proof. clear. induction a as [|x a IH]; simpl; [reflexivity|rewrite IH; reflexivity]. Qed.

Lemma countChar_append (c : ascii) (a b : string) :
  countChar c (a ++ b) = (countChar c a + countChar c b)%nat.
Proof.
  clear. induction a as [|x a IH]; simpl; [reflexivity|rewrite IH; lia].
Qed.

Lemma join_snoc (sep x y : string) (l : list string) :
  join sep ((x :: l) ++ [y])%list = (join sep (x :: l) ++ sep ++ y)%string.
Proof.
  clear. revert x. induction l as [|z l IH]; intros x.
  - reflexivity.
  - change (join sep ((x :: z :: l) ++ [y])%list)
      with (x ++ sep ++ join sep ((z :: l) ++ [y])%list)%string.
    rewrite IH.
    change (join sep (x :: z :: l)) with (x ++ sep ++ join sep (z :: l))%string.
    rewrite !append_assoc. reflexivity.
Qed.

(** The text of the summary file.  It is the header alone for an empty
    summary, and each entry adds one line feed and one line, in the order of
    the entries, with no line feed at the end.  A line is written without
    quotes: when the three numbers print with no comma, the line has four
    commas and those of the key, so that a key with a comma shifts the
    columns; and when no line holds a line feed, the text has as many line
    feeds as there are entries. *)
Theorem csv_layout (entries : list WeeklyEntry) :
  csv [] = "employeeKey,total_hours,expected_hours,delta,status"
  /\ (forall e, csv (entries ++ [e]) = (csv entries ++ LF ++ csvLine e)%string)
  /\ (forall e,
         countChar "," (NumberToString (total_hours e)) = 0%nat ->
         countChar "," (NumberToString (expected_hours e)) = 0%nat ->
         countChar "," (NumberToString (delta e)) = 0%nat ->
         countChar "," (csvLine e) = (4 + countChar "," (keyText (key e)))%nat)
  /\ ((forall e, In e entries -> countChar "010" (csvLine e) = 0%nat) ->
      countChar "010" (csv entries) = List.length entries).
Proof.
  split; [reflexivity|]. split; [|split].
  - intros e. unfold csv. rewrite map_app. cbn [map].
    apply (join_snoc LF _ (csvLine e) (map csvLine entries)).
  - intros e H1 H2 H3. unfold csvLine. rewrite !countChar_append, H1, H2, H3.
    destruct (status e); simpl; lia.
  - assert (G : forall (l : list WeeklyEntry) (x : string),
               (forall e, In e l -> countChar "010" (csvLine e) = 0%nat) ->
               countChar "010" (join LF (x :: map csvLine l))
               = (countChar "010" x + List.length l)%nat).
    { induction l as [|e l IH]; intros x Hl.
      - simpl. lia.
      - change (join LF (x :: map csvLine (e :: l)))
          with (x ++ LF ++ join LF (csvLine e :: map csvLine l))%string.
        rewrite !countChar_append, IH by (intros e' He'; apply Hl; right; exact He').
        rewrite (Hl e (or_introl eq_refl)). simpl. lia. }
    intros H. unfold csv. cbn [app]. rewrite (G entries _ H). reflexivity.
Qed.

End Runtime.

(** ** The weekly summary *)


(** ** The sign of a rounded number *)

Lemma shr_1_nonneg (mrs : shr_record) :
  (0 <= shr_m mrs)%Z -> (0 <= shr_m (shr_1 mrs))%Z.
Proof. destruct mrs as [m r s]. destruct m as [|[p|p|]|[p|p|]]; simpl; lia. Qed.

Lemma iter_shr_1_nonneg (p : positive) :
  forall mrs, (0 <= shr_m mrs)%Z -> (0 <= shr_m (iter_pos shr_1 p mrs))%Z.
Proof.
  induction p as [p IH|p IH|]; intros mrs H; simpl.
  - apply IH, IH, shr_1_nonneg, H.
  - apply IH, IH, H.
  - apply shr_1_nonneg, H.
Qed.

Lemma shr_fexp_nonneg (m e : Z) (l : location) :
  (0 <= m)%Z -> (0 <= shr_m (fst (shr_fexp 53 1024 m e l)))%Z.
Proof.
  intros H. unfold shr_fexp, shr.
  assert (R : shr_m (shr_record_of_loc m l) = m) by (destruct l as [|[]]; reflexivity).
  match goal with |- context [match ?n with _ => _ end] => destruct n end; simpl.
  - rewrite R. exact H.
  - apply iter_shr_1_nonneg. rewrite R. exact H.
  - rewrite R. exact H.
Qed.

Lemma round_nearest_even_nonneg (m : Z) (l : location) :
  (0 <= m)%Z -> (0 <= round_nearest_even m l)%Z.
Proof.
  intros H. destruct l as [|[]]; simpl; try lia. destruct (Z.even m); lia.
Qed.

(** A rounded number has the sign it was given, and is no NaN. *)
Lemma binary_round_aux_signed (sx : bool) (mx ex : Z) (lx : location) :
  (0 <= mx)%Z -> IEEE.signed sx (binary_round_aux 53 1024 sx mx ex lx).
Proof.
  intros H. unfold binary_round_aux.
  pose proof (shr_fexp_nonneg mx ex lx H) as H1.
  destruct (shr_fexp 53 1024 mx ex lx) as [mrs' e']. simpl in H1.
  pose proof (shr_fexp_nonneg _ e' loc_Exact
                (round_nearest_even_nonneg _ (loc_of_shr_record mrs') H1)) as H2.
  destruct (shr_fexp 53 1024 (round_nearest_even (shr_m mrs') (loc_of_shr_record mrs'))
                     e' loc_Exact) as [mrs'' e'']. simpl in H2.
  destruct (shr_m mrs'') as [|m|m]; [reflexivity| |lia].
  destruct (Z.leb e'' (1024 - 53)); reflexivity.
Qed.

Lemma binary_round_signed (s : bool) (m : positive) (e : Z) :
  IEEE.signed s (binary_round 53 1024 s m e).
Proof.
  unfold binary_round. destruct (shl_align m e _) as [mz ez].
  apply binary_round_aux_signed. lia.
Qed.

Lemma signed_not_nan (s : bool) (x : IEEE.double) : IEEE.signed s x -> x <> S754_nan.
Proof. intros H ->. exact H. Qed.

Lemma binary_normalize_not_nan (k e : Z) (s : bool) :
  binary_normalize 53 1024 k e s <> S754_nan.
Proof.
  destruct k as [|p|p]; simpl; [discriminate| |];
    eapply signed_not_nan; apply binary_round_signed.
Qed.

Lemma mul_finite_not_nan (n y : IEEE.double) :
  IEEE.Number_isFinite n = true -> IEEE.Number_isFinite y = true ->
  IEEE.mul n y <> S754_nan.
Proof.
  destruct n as [s| | |s m e], y as [t| | |t m' e']; simpl; try discriminate; intros _ _.
  eapply signed_not_nan. apply binary_round_aux_signed. lia.
Qed.

Lemma Math_round_not_nan (x : IEEE.double) : x <> S754_nan -> IEEE.Math_round x <> S754_nan.
Proof.
  intros H. destruct x as [s|s| |s m e]; simpl; try assumption.
  destruct e as [|p|p]; try discriminate.
  destruct (_ =? 0)%Z; [discriminate|apply binary_normalize_not_nan].
Qed.

Lemma div_eucl_nonneg (a b q r : Z) :
  (0 <= a)%Z -> (0 < b)%Z -> Z.div_eucl a b = (q, r) -> (0 <= q)%Z.
Proof.
  intros Ha Hb E. assert (Q : q = (a / b)%Z) by (unfold Z.div; rewrite E; reflexivity).
  subst q. apply Z.div_pos; assumption.
Qed.

Lemma div_finite_not_nan (x : IEEE.double) (t : bool) (m' : positive) (e' : Z) :
  x <> S754_nan -> IEEE.div x (S754_finite t m' e') <> S754_nan.
Proof.
  intros H. destruct x as [s|s| |s m e]; simpl; try discriminate; [contradiction|].
  unfold IEEE.div, SFdiv, SFdiv_core_binary.
  match goal with |- context [Z.div_eucl ?a ?b] =>
    pose proof (div_eucl_nonneg a b) as D; destruct (Z.div_eucl a b) as [q r]
  end.
  eapply signed_not_nan. apply binary_round_aux_signed.
  apply (D q r); [|lia|reflexivity].
  match goal with |- context [match ?n with _ => _ end] => destruct n end;
    [lia|apply Z.shiftl_nonneg; lia|lia].
Qed.

(** The hours [clean] returns are a number: zero, finite or infinite. *)
Lemma clean_hours_not_nan (StringToNumber : string -> IEEE.double) (r : IEEE.Row) :
  IEEE.hoursWorked (IEEE.clean StringToNumber r) <> S754_nan.
Proof.
  simpl. unfold IEEE.toFloat2.
  destruct (IEEE.isBlank (IEEE.raw_hoursWorked r)); simpl; [discriminate|].
  destruct (IEEE.Number_isFinite _) eqn:F; simpl; [|discriminate].
  change (IEEE.ofZ 100) with (S754_finite false 7036874417766400 (-46)).
  apply div_finite_not_nan, Math_round_not_nan, mul_finite_not_nan; [exact F|reflexivity].
Qed.


(** ** Comparisons *)


Lemma SFeqb_finite (x : IEEE.double) (s : bool) (m : positive) (e : Z) :
  SFeqb x (S754_finite s m e) = true -> x = S754_finite s m e.
Proof.
  unfold SFeqb. destruct x as [t|t| |t m' e']; simpl;
    try (destruct s; discriminate); try (destruct t; discriminate); try discriminate.
  destruct t, s; try discriminate;
    destruct (e' ?= e)%Z eqn:E; try discriminate;
    apply Z.compare_eq in E; subst e'; intros H;
    assert (M : Pos.compare m' m = Eq)
      by (unfold Pos.compare; destruct (Pos.compare_cont Eq m' m); simpl in H;
          try discriminate; reflexivity);
    apply Pos.compare_eq in M; subst m'; reflexivity.
Qed.

Lemma same_eq (x y : IEEE.double) : IEEE.same x y = true -> x = y.
Proof.
  destruct x as [s|s| |s m e], y as [t|t| |t m' e']; simpl; try discriminate;
    try reflexivity; try (intros H; apply Bool.eqb_prop in H; congruence).
  intros H. apply andb_true_iff in H. destruct H as [H He].
  apply andb_true_iff in H. destruct H as [Hs Hm].
  apply Bool.eqb_prop in Hs. apply Pos.eqb_eq in Hm. apply Z.eqb_eq in He. congruence.
Qed.

(** ** The validator on doubles *)

Lemma IEEE_validate_In (c : IEEE.Cleaned) (m : string) :
  In m (IEEE.validate c)
  <-> (m = "Missing unique key (email or employeeNum)."
       /\ truthy (IEEE.email c) = false /\ truthy (IEEE.employeeNum c) = false)
      \/ (m = "Missing firstName." /\ truthy (IEEE.firstName c) = false)
      \/ (m = "Missing lastName." /\ truthy (IEEE.lastName c) = false)
      \/ (m = "hoursWorked cannot be negative."
          /\ SFltb (IEEE.hoursWorked c) (S754_zero false) = true)
      \/ (m = "hoursWorked per record > 24 is not allowed."
          /\ SFltb (IEEE.ofZ 24) (IEEE.hoursWorked c) = true).
Proof.
  unfold IEEE.validate.
  destruct (truthy (IEEE.email c)), (truthy (IEEE.employeeNum c)),
    (truthy (IEEE.firstName c)), (truthy (IEEE.lastName c)),
    (SFltb (IEEE.hoursWorked c) (S754_zero false)),
    (SFltb (IEEE.ofZ 24) (IEEE.hoursWorked c));
    simpl; intuition (subst; auto; congruence).
Qed.




(** ** The map of the weekly summary, on doubles *)













(** ** The status of an entry *)



(** ** Hours of two decimals *)

Lemma hundredths_In (k : Z) : (-2500 <= k <= 2500)%Z -> In k IEEE.hundredths.
Proof.
  intros H. unfold IEEE.hundredths. apply in_map_iff.
  exists (Z.to_nat (k + 2500)). split; [lia|]. apply in_seq. lia.
Qed.

Lemma hoursCheck_hundredths : forallb IEEE.hoursCheck IEEE.hundredths = true.
Proof. vm_compute. reflexivity. Qed.

(** A number of hundredths [k / 100], up to 25 hours either way, is left
    as it is by [toFloat2], and the two bounds of [validate] read it as the
    decimal it stands for. *)
Lemma hundredths_kept (StringToNumber : string -> IEEE.double) (h : IEEE.JsHours) (k : Z) :
  (-2500 <= k <= 2500)%Z ->
  IEEE.isBlank h = false ->
  IEEE.ToNumber StringToNumber h = IEEE.ofFraction k 100 ->
  IEEE.toFloat2 StringToNumber h = Some (IEEE.ofFraction k 100)
  /\ SFltb (IEEE.ofFraction k 100) (S754_zero false) = (k <? 0)%Z
  /\ SFltb (IEEE.ofZ 24) (IEEE.ofFraction k 100) = (2400 <? k)%Z.
Proof.
  intros Hk Hb Hn.
  pose proof (proj1 (forallb_forall _ _) hoursCheck_hundredths k (hundredths_In k Hk)) as C.
  unfold IEEE.hoursCheck in C. unfold IEEE.toFloat2 in *. rewrite Hb, Hn.
  cbn [IEEE.isBlank IEEE.ToNumber] in C.
  destruct (IEEE.Number_isFinite (IEEE.ofFraction k 100)); [|discriminate].
  apply andb_true_iff in C. destruct C as [C C3].
  apply andb_true_iff in C. destruct C as [C1 C2].
  apply same_eq in C1. apply Bool.eqb_prop in C2. apply Bool.eqb_prop in C3.
  rewrite C1 in *. auto.
Qed.

(** ** The status of an entry and its printed total *)



(** ** The normalizer on doubles *)

Lemma IEEE_orElse_absent {A : Type} (v : IEEE.JsText) (f : string -> A) (d : A) :
  IEEE.absentOrEmpty v -> IEEE.orElse (option_map trim (IEEE.optToString v)) f d = d.
Proof.
  unfold IEEE.absentOrEmpty. destruct (IEEE.optToString v) as [t|]; simpl; [|reflexivity].
  intros ->. reflexivity.
Qed.

Lemma IEEE_orElse_present {A : Type} (v : IEEE.JsText) (f : string -> A) (d : A)
      (t : string) :
  IEEE.optToString v = Some t -> trim t <> "" ->
  IEEE.orElse (option_map trim (IEEE.optToString v)) f d = f (trim t).
Proof.
  intros -> H. simpl. destruct (trim t =? "") eqn:E; [|reflexivity].
  apply String.eqb_eq in E. contradiction.
Qed.

Lemma IEEE_absentOrEmpty_dec (v : IEEE.JsText) :
  IEEE.absentOrEmpty v \/ exists t, IEEE.optToString v = Some t /\ trim t <> "".
Proof.
  unfold IEEE.absentOrEmpty. destruct (IEEE.optToString v) as [t|]; [|left; exact I].
  destruct (string_dec (trim t) ""); [left; assumption|right; eauto].
Qed.

(** The texts [toBool] reads as a boolean. *)
Lemma IEEE_toBool_text (v : string) :
  let t := toLowerCase (trim v) in
  (In t ["true"; "1"; "yes"; "y"] -> v <> "" -> IEEE.toBool (IEEE.ActiveString v) = Some true)
  /\ (In t ["false"; "0"; "no"; "n"] -> IEEE.toBool (IEEE.ActiveString v) = Some false)
  /\ (~ In t ["true"; "1"; "yes"; "y"; "false"; "0"; "no"; "n"] ->
      IEEE.toBool (IEEE.ActiveString v) = None).
Proof.
  intros t. unfold IEEE.toBool. fold t.
  split; [|split].
  - intros H Hv. destruct (v =? "") eqn:E; [apply String.eqb_eq in E; contradiction|].
    apply (proj2 (includes_In ["true"; "1"; "yes"; "y"] t)) in H. rewrite H. reflexivity.
  - intros H. destruct (v =? "") eqn:E.
    + apply String.eqb_eq in E. subst v. exfalso. unfold t in H. simpl in H.
      repeat match goal with H : _ \/ _ |- _ => destruct H end;
        try contradiction; discriminate.
    + destruct (includes ["true"; "1"; "yes"; "y"] t) eqn:E1.
      * apply includes_In in E1. simpl in H, E1.
        repeat match goal with H : _ \/ _ |- _ => destruct H end;
          try contradiction; congruence.
      * apply (proj2 (includes_In ["false"; "0"; "no"; "n"] t)) in H.
        rewrite H. reflexivity.
  - intros H. destruct (v =? ""); [reflexivity|].
    destruct (includes ["true"; "1"; "yes"; "y"] t) eqn:E1.
    + exfalso. apply H. apply includes_In in E1. simpl in *. tauto.
    + destruct (includes ["false"; "0"; "no"; "n"] t) eqn:E2; [|reflexivity].
      exfalso. apply H. apply includes_In in E2. simpl in *. tauto.
Qed.

Lemma trim_not_empty (t : string) : trim t <> "" -> (trim (trim t) =? "") = false.
Proof.
  intros H. rewrite trim_idempotent. apply String.eqb_neq. exact H.
Qed.

(** C2.  [clean] is a total function of the row, with no error path, and
    the record it returns has [department], [role] and [active] as the
    defaulting rules give them: [department] is null when the field is absent
    or empty once trimmed and the trimmed text otherwise; [role] is ["Staff"]
    in the first case and the trimmed text otherwise, never empty and with no
    white space at either end; [active] is true when the field is absent, a
    boolean is kept, and a text is read through [trim] and [toLowerCase]:
    true/1/yes/y give true, false/0/no/n give false, any other text gives
    true.  [hoursWorked] is never NaN; it is 0 when the field is absent,
    empty or no finite number, and [Math.round(n * 100) / 100] otherwise,
    which leaves a number of two decimals as it is (up to 25 hours either
    way).  But it is not always a number of two decimals: 1e308 is finite,
    [n * 100] overflows, and the record holds [Infinity].  The last line is
    [clean] on a row whose every field needs cleaning. *)
Theorem clean_defaults_overflow (StringToNumber : string -> IEEE.double) (r : IEEE.Row) :
  let c := IEEE.clean StringToNumber r in
  let h := IEEE.raw_hoursWorked r in
  let n := IEEE.ToNumber StringToNumber h in
  (IEEE.absentOrEmpty (IEEE.raw_department r) -> IEEE.department c = None)
  /\ (forall t, IEEE.optToString (IEEE.raw_department r) = Some t -> trim t <> "" ->
        IEEE.department c = Some (trim t))
  /\ (IEEE.absentOrEmpty (IEEE.raw_role r) -> IEEE.role c = "Staff")
  /\ (forall t, IEEE.optToString (IEEE.raw_role r) = Some t -> trim t <> "" ->
        IEEE.role c = trim t)
  /\ (isTrimmed (IEEE.role c) = true /\ IEEE.role c <> "")
  /\ IEEE.hoursWorked c <> S754_nan
  /\ (IEEE.isBlank h = true \/ IEEE.Number_isFinite n = false ->
        IEEE.hoursWorked c = S754_zero false)
  /\ (IEEE.isBlank h = false -> IEEE.Number_isFinite n = true ->
        IEEE.hoursWorked c
        = IEEE.div (IEEE.Math_round (IEEE.mul n (IEEE.ofZ 100))) (IEEE.ofZ 100))
  /\ (forall k : Z, (-2500 <= k <= 2500)%Z ->
        IEEE.isBlank h = false -> n = IEEE.ofFraction k 100 ->
        IEEE.hoursWorked c = IEEE.ofFraction k 100)
  /\ (IEEE.raw_active r = IEEE.ActiveUndefined \/ IEEE.raw_active r = IEEE.ActiveNull ->
        IEEE.active c = true)
  /\ (forall b, IEEE.raw_active r = IEEE.ActiveBoolean b -> IEEE.active c = b)
  /\ (forall v, IEEE.raw_active r = IEEE.ActiveString v ->
        let t := toLowerCase (trim v) in
        (In t ["true"; "1"; "yes"; "y"] -> IEEE.active c = true)
        /\ (In t ["false"; "0"; "no"; "n"] -> IEEE.active c = false)
        /\ (~ In t ["true"; "1"; "yes"; "y"; "false"; "0"; "no"; "n"] ->
            IEEE.active c = true))
  /\ (h = IEEE.HoursNumber IEEE.d1e308 ->
        IEEE.Number_isFinite n = true
        /\ IEEE.hoursWorked c = S754_infinity false
        /\ IEEE.Number_isFinite (IEEE.hoursWorked c) = false
        /\ In "hoursWorked per record > 24 is not allowed." (IEEE.validate c))
  /\ IEEE.clean IEEE.plainNumber IEEE.untidy
     = IEEE.mkCleaned (Some "a@x.com") (Some "7") (Some "Ann") (Some "Lee") None "Staff"
                      (IEEE.ofFraction 746 100) true.
Proof.
  intros c h n.
  assert (Rol : isTrimmed (IEEE.role c) = true /\ IEEE.role c <> "").
  { unfold c. simpl. destruct (IEEE_absentOrEmpty_dec (IEEE.raw_role r)) as [H|[t [H1 H2]]].
    - rewrite IEEE_orElse_absent by exact H. split; [reflexivity|discriminate].
    - rewrite (IEEE_orElse_present _ (fun s => s) _ _ H1 H2).
      split; [apply trim_isTrimmed|exact H2]. }
  split; [intros H; unfold c; simpl; apply IEEE_orElse_absent; exact H|].
  split; [intros t H1 H2; unfold c; simpl; apply (IEEE_orElse_present _ _ _ _ H1 H2)|].
  split; [intros H; unfold c; simpl; apply IEEE_orElse_absent; exact H|].
  split; [intros t H1 H2; unfold c; simpl;
          exact (IEEE_orElse_present _ (fun s => s) _ _ H1 H2)|].
  split; [exact Rol|].
  split; [apply clean_hours_not_nan|].
  split; [|split; [|split]].
  - unfold c, n, h. simpl. unfold IEEE.toFloat2. intros [H|H]; rewrite H; [reflexivity|].
    destruct (IEEE.isBlank (IEEE.raw_hoursWorked r)); reflexivity.
  - unfold c, n, h. simpl. unfold IEEE.toFloat2. intros Hb Hn. rewrite Hb, Hn. reflexivity.
  - intros k Hk Hb Hn. unfold c. cbn [IEEE.clean IEEE.hoursWorked].
    destruct (hundredths_kept StringToNumber h k Hk Hb Hn) as [T _].
    fold h. rewrite T. reflexivity.
  - split; [|split; [|split; [|split]]].
    + unfold c. simpl. intros [H|H]; rewrite H; reflexivity.
    + unfold c. simpl. intros b H. rewrite H. reflexivity.
    + intros v Hv t. unfold c. cbn [IEEE.clean IEEE.active]. rewrite Hv.
      destruct (IEEE_toBool_text v) as [T [F N]]. fold t in T, F, N.
      split; [|split].
      * intros H. destruct (string_dec v "") as [->|Hne]; [reflexivity|].
        rewrite (T H Hne). reflexivity.
      * intros H. rewrite (F H). reflexivity.
      * intros H. rewrite (N H). reflexivity.
    + intros Hh.
      assert (H1 : IEEE.hoursWorked c = S754_infinity false)
        by (unfold c; cbn [IEEE.clean IEEE.hoursWorked]; fold h; rewrite Hh;
            vm_compute; reflexivity).
      split; [unfold n; rewrite Hh; reflexivity|].
      split; [exact H1|]. split; [rewrite H1; reflexivity|].
      apply IEEE_validate_In. right. right. right. right.
      split; [reflexivity|]. rewrite H1. reflexivity.
    + vm_compute. reflexivity.
Qed.

(** ** The bounds on the hours *)

(** Hours of two decimals are checked as the decimals they are.  When the
    field converts to the double of [k / 100], up to 25 hours either way,
    [clean] keeps that double, and [validate] reports it as negative exactly
    when [k < 0] and as more than 24 exactly when [2400 < k]: 24 hours are
    accepted, 24.01 are not.  Between the
    hundredths the number is rounded first, in doubles: 24.004 counts as 24
    and is accepted, the double of 24.005 counts as 24.01 and is rejected,
    and the double of 1.005 counts as 1. *)
Theorem hours_two_decimals (StringToNumber : string -> IEEE.double) (r : IEEE.Row) (k : Z) :
  (-2500 <= k <= 2500)%Z ->
  IEEE.isBlank (IEEE.raw_hoursWorked r) = false ->
  IEEE.ToNumber StringToNumber (IEEE.raw_hoursWorked r) = IEEE.ofFraction k 100 ->
  let c := IEEE.clean StringToNumber r in
  let round2 (n : IEEE.double) := IEEE.toFloat2 StringToNumber (IEEE.HoursNumber n) in
  IEEE.hoursWorked c = IEEE.ofFraction k 100
  /\ (In "hoursWorked cannot be negative." (IEEE.validate c) <-> (k < 0)%Z)
  /\ (In "hoursWorked per record > 24 is not allowed." (IEEE.validate c) <-> (2400 < k)%Z)
  /\ round2 (IEEE.ofFraction 24004 1000) = Some (IEEE.ofZ 24)
  /\ round2 (IEEE.ofFraction 24005 1000) = Some (IEEE.ofFraction 2401 100)
  /\ round2 (IEEE.ofFraction 1005 1000) = Some (IEEE.ofZ 1).
Proof.
  intros Hk Hb Hn c round2.
  destruct (hundredths_kept StringToNumber _ k Hk Hb Hn) as [T [L0 L24]].
  assert (Hc : IEEE.hoursWorked c = IEEE.ofFraction k 100)
    by (unfold c; cbn [IEEE.clean IEEE.hoursWorked]; rewrite T; reflexivity).
  split; [exact Hc|]. split; [|split].
  - rewrite IEEE_validate_In, Hc, L0. split.
    + intros [[E _]|[[E _]|[[E _]|[[_ H]|[E _]]]]]; try discriminate.
      apply Z.ltb_lt. exact H.
    + intros H. right. right. right. left. split; [reflexivity|]. apply Z.ltb_lt. exact H.
  - rewrite IEEE_validate_In, Hc, L24. split.
    + intros [[E _]|[[E _]|[[E _]|[[E _]|[_ H]]]]]; try discriminate.
      apply Z.ltb_lt. exact H.
    + intros H. right. right. right. right. split; [reflexivity|]. apply Z.ltb_lt. exact H.
  - unfold round2. split; [|split]; vm_compute; reflexivity.
Qed.

(** ** Cleaning twice *)

Lemma Cleaned_ext (a b : IEEE.Cleaned) :
  IEEE.email a = IEEE.email b -> IEEE.employeeNum a = IEEE.employeeNum b ->
  IEEE.firstName a = IEEE.firstName b -> IEEE.lastName a = IEEE.lastName b ->
  IEEE.department a = IEEE.department b -> IEEE.role a = IEEE.role b ->
  IEEE.hoursWorked a = IEEE.hoursWorked b -> IEEE.active a = IEEE.active b ->
  a = b.
Proof. destruct a, b; simpl; intros; subst; reflexivity. Qed.

(** [clean] on its own result.  The record [clean] returns is itself a
    row, and cleaning it again gives the same email, employee number,
    names, department, role and flag.  It gives the same hours, and so the
    same record, when the hours are a number of two decimals, up to 25
    either way.  It does not for every number: the hours 1e308 are cleaned
    to [Infinity], which breaks the rule of 24 hours, and cleaned again to
    0, which breaks none. *)
Theorem clean_twice (StringToNumber : string -> IEEE.double) (r : IEEE.Row) :
  let c := IEEE.clean StringToNumber r in
  let c' := IEEE.clean StringToNumber (IEEE.rowOfCleaned c) in
  IEEE.email c' = IEEE.email c
  /\ IEEE.employeeNum c' = IEEE.employeeNum c
  /\ IEEE.firstName c' = IEEE.firstName c
  /\ IEEE.lastName c' = IEEE.lastName c
  /\ IEEE.department c' = IEEE.department c
  /\ IEEE.role c' = IEEE.role c
  /\ IEEE.active c' = IEEE.active c
  /\ (forall k : Z, (-2500 <= k <= 2500)%Z ->
        IEEE.hoursWorked c = IEEE.ofFraction k 100 ->
        c' = c /\ IEEE.validate c' = IEEE.validate c)
  /\ (IEEE.raw_hoursWorked r = IEEE.HoursNumber IEEE.d1e308 ->
        IEEE.hoursWorked c = S754_infinity false
        /\ IEEE.hoursWorked c' = S754_zero false
        /\ In "hoursWorked per record > 24 is not allowed." (IEEE.validate c)
        /\ ~ In "hoursWorked per record > 24 is not allowed." (IEEE.validate c')).
Proof.
  intros c c'.
  assert (Text : forall v f, (forall s, f (f s) = f s) ->
            option_map f (IEEE.optToString
                            match option_map f (IEEE.optToString v) with
                            | Some s => IEEE.Text s
                            | None => IEEE.TextUndefined
                            end)
            = option_map f (IEEE.optToString v)).
  { intros v f Hf. destruct v; simpl; [reflexivity|reflexivity|rewrite Hf; reflexivity]. }
  assert (E1 : IEEE.email c' = IEEE.email c)
    by (unfold c', c; simpl; apply (Text _ (fun s => toLowerCase (trim s)));
        apply lower_trim_idempotent).
  assert (E2 : IEEE.employeeNum c' = IEEE.employeeNum c)
    by (unfold c', c; simpl; apply (Text _ trim); apply trim_idempotent).
  assert (E3 : IEEE.firstName c' = IEEE.firstName c)
    by (unfold c', c; simpl; apply (Text _ trim); apply trim_idempotent).
  assert (E4 : IEEE.lastName c' = IEEE.lastName c)
    by (unfold c', c; simpl; apply (Text _ trim); apply trim_idempotent).
  assert (E5 : IEEE.department c' = IEEE.department c).
  { unfold c', c. simpl.
    destruct (IEEE_absentOrEmpty_dec (IEEE.raw_department r)) as [H|[t [H1 H2]]].
    - rewrite (IEEE_orElse_absent _ Some None H). reflexivity.
    - rewrite (IEEE_orElse_present _ Some None _ H1 H2). simpl.
      rewrite (trim_not_empty t H2), trim_idempotent. reflexivity. }
  assert (E6 : IEEE.role c' = IEEE.role c).
  { unfold c', c. simpl.
    destruct (IEEE_absentOrEmpty_dec (IEEE.raw_role r)) as [H|[t [H1 H2]]].
    - rewrite (IEEE_orElse_absent _ (fun s => s) "Staff" H). reflexivity.
    - rewrite (IEEE_orElse_present _ (fun s => s) "Staff" _ H1 H2). simpl.
      rewrite (trim_not_empty t H2), trim_idempotent. reflexivity. }
  assert (E7 : IEEE.active c' = IEEE.active c) by reflexivity.
  split; [exact E1|]. split; [exact E2|]. split; [exact E3|]. split; [exact E4|].
  split; [exact E5|]. split; [exact E6|]. split; [exact E7|]. split.
  - intros k Hk Hh.
    assert (E8 : IEEE.hoursWorked c' = IEEE.hoursWorked c).
    { unfold c'. cbn [IEEE.clean IEEE.hoursWorked IEEE.rowOfCleaned IEEE.raw_hoursWorked].
      destruct (hundredths_kept StringToNumber (IEEE.HoursNumber (IEEE.hoursWorked c)) k Hk)
        as [T _]; [reflexivity|exact Hh|].
      rewrite T, Hh. reflexivity. }
    assert (E : c' = c) by (apply Cleaned_ext; assumption).
    split; [exact E|rewrite E; reflexivity].
  - intros Hh.
    assert (H1 : IEEE.hoursWorked c = S754_infinity false)
      by (unfold c; cbn [IEEE.clean IEEE.hoursWorked]; rewrite Hh; vm_compute; reflexivity).
    assert (H2 : IEEE.hoursWorked c' = S754_zero false)
      by (unfold c'; cbn [IEEE.clean IEEE.hoursWorked IEEE.rowOfCleaned IEEE.raw_hoursWorked];
          rewrite H1; reflexivity).
    split; [exact H1|]. split; [exact H2|]. split.
    + apply IEEE_validate_In. right. right. right. right.
      split; [reflexivity|]. rewrite H1. reflexivity.
    + rewrite IEEE_validate_In, H2.
      intros [[E _]|[[E _]|[[E _]|[[E _]|[_ H]]]]]; discriminate.
Qed.

(** ** The claims on sample inputs *)

(** C4 on five elements in batches of two. *)
Lemma toBatches_partition_witness :
  exists batches,
    toBatches 5 [1; 2; 3; 4; 5]%nat 2 = Some batches
    /\ List.concat batches = [1; 2; 3; 4; 5]%nat
    /\ Forall (fun b => (Z.of_nat (List.length b) <= 2)%Z) batches
    /\ fullButLast 2 batches
    /\ (forall j b, nth_error batches j = Some b ->
          b = slice [1; 2; 3; 4; 5]%nat (Z.of_nat j * 2) (Z.of_nat j * 2 + 2)).
Proof.
  apply (toBatches_partition [1; 2; 3; 4; 5]%nat 2 5); [lia|simpl; lia].
Defined.

Example toBatches_five :
  toBatches 5 [1; 2; 3; 4; 5]%nat 2 = Some [[1; 2]; [3; 4]; [5]]%nat.
Proof. reflexivity. Qed.



(** C8 as first stated fails: a record whose email is empty and whose
    employee number is not has no violation. *)
Lemma empty_email_counterexample :
  let r := person (JsString "") (JsString "7") (JsNumber 8) in
  email (clean decimalStringToNumber decimalNumberToString r) = Some ""
  /\ validate (clean decimalStringToNumber decimalNumberToString r) = []
  /\ accepted decimalStringToNumber decimalNumberToString [r]
     = [clean decimalStringToNumber decimalNumberToString r].
Proof. vm_compute. repeat split. Qed.


(** C9 on the sample week: the dry run leaves the store empty and counts no
    success, and the run that writes holds the same summary and tally. *)
Lemma dry_run_summary_witness :
  exists rep rep',
    main decimalStringToNumber decimalNumberToString 2 40 0 true sampleWeek [] = Returned rep
    /\ main decimalStringToNumber decimalNumberToString 2 40 6 false sampleWeek []
       = Returned rep'
    /\ db_after rep = [] /\ success rep = 0%nat /\ success rep' = 5%nat
    /\ entries rep' = entries rep
    /\ n_pass rep' = n_pass rep /\ n_warn rep' = n_warn rep /\ n_fail rep' = n_fail rep.
Proof.
  destruct (dry_run_summary decimalStringToNumber decimalNumberToString 2 40 sampleWeek)
    as [D [_ Eq]].
  destruct (D 0%nat []) as [rep [Hd [Hdb [Hs _]]]].
  destruct (main decimalStringToNumber decimalNumberToString 2 40 6 false sampleWeek [])
    as [rep'| |] eqn:E; [|vm_compute in E; discriminate|vm_compute in E; discriminate].
  exists rep, rep'.
  destruct (Eq 0%nat 6%nat [] [] rep rep' Hd E) as [He [Hp [Hw [Hf _]]]].
  split; [exact Hd|]. split; [reflexivity|]. split; [exact Hdb|]. split; [exact Hs|].
  split; [|split; [exact He|split; [exact Hp|split; [exact Hw|exact Hf]]]].
  vm_compute in E. injection E as <-. reflexivity.
Defined.

(** C10 with [BATCH_SIZE=0] in the environment: the size read is 0, and the
    run on the sample week never leaves the batching stage; with the default
    size the batcher returns. *)
Lemma toBatches_termination_witness :
  BATCH_SIZE_of decimalStringToNumber (Some "0") = Some (inject_Z 0)
  /\ (forall fuel : nat,
         main decimalStringToNumber decimalNumberToString 0 40 fuel false sampleWeek []
         = OutOfFuel)
  /\ (exists batches, toBatches 3 [1; 2; 3]%nat 100 = Some batches)
  /\ (forall fuel : nat, toBatches fuel [1; 2; 3]%nat (-1) = None).
Proof.
  destruct (toBatches_termination decimalStringToNumber decimalNumberToString 0 40)
    as [_ [T [N [_ M]]]].
  split; [reflexivity|]. split; [|split].
  - intros fuel. apply (M (Some "0") sampleWeek []); [reflexivity|lia|].
    vm_compute. discriminate.
  - destruct (T nat [1; 2; 3]%nat 100%Z) as [_ H]; [lia|]. apply H. simpl. lia.
  - destruct (N nat [1; 2; 3]%nat (-1)%Z) as [_ H]; [lia|discriminate|exact H].
Defined.

(** ** Two runs on one input *)

(** C1 fails on [week1] after [week0].  The first run of [week1] finds the
    employee of number 1 and updates it, then gives it the number 2.  The
    second run finds no employee of number 1 and creates one: the store has
    one row after one run and two rows after two. *)
Theorem upsert_twice_differs :
  exists db0 db1 db2,
    runOnce decimalStringToNumber decimalNumberToString 100 40 10 week0 [] = Some db0
    /\ runOnce decimalStringToNumber decimalNumberToString 100 40 10 week1 db0 = Some db1
    /\ runOnce decimalStringToNumber decimalNumberToString 100 40 10 week1 db1 = Some db2
    /\ map (fun e => (e_email e, e_employeeNum e)) db0 = [("a@x.com", Some "1")]
    /\ map (fun e => (e_email e, e_employeeNum e)) db1 = [("a@x.com", Some "2")]
    /\ map (fun e => (e_email e, e_employeeNum e)) db2
       = [("a@x.com", Some "2"); ("1@placeholder.local", Some "1")]
    /\ db2 <> db1.
Proof.
  eexists. eexists. eexists.
  split; [vm_compute; reflexivity|].
  split; [vm_compute; reflexivity|].
  split; [vm_compute; reflexivity|].
  split; [vm_compute; reflexivity|].
  split; [vm_compute; reflexivity|].
  split; [vm_compute; reflexivity|].
  intros H. apply (f_equal (@List.length Employee)) in H. vm_compute in H. discriminate.
Qed.

(** C7 fails on [week7] after [week0].  The record has a blank email, which
    [clean] turns into the empty string; it is accepted, it is upserted on
    its employee number, and the update writes the empty string over the
    email of the stored row. *)
Theorem update_overwrites_email :
  exists c db0 db1,
    accepted decimalStringToNumber decimalNumberToString week7 = [c]
    /\ email c = Some "" /\ employeeNum c = Some "1"
    /\ option_map where_ (upsertRequest c) = Some (ByEmployeeNum "1")
    /\ option_map (fun a => u_email (update a)) (upsertRequest c) = Some (Some "")
    /\ runOnce decimalStringToNumber decimalNumberToString 100 40 10 week0 [] = Some db0
    /\ runOnce decimalStringToNumber decimalNumberToString 100 40 10 week7 db0 = Some db1
    /\ map (fun e => (e_email e, e_employeeNum e)) db0 = [("a@x.com", Some "1")]
    /\ map (fun e => (e_email e, e_employeeNum e)) db1 = [("", Some "1")].
Proof.
  eexists. eexists. eexists.
  split; [vm_compute; reflexivity|].
  split; [vm_compute; reflexivity|].
  split; [vm_compute; reflexivity|].
  split; [vm_compute; reflexivity|].
  split; [vm_compute; reflexivity|].
  split; [vm_compute; reflexivity|].
  split; [vm_compute; reflexivity|].
  split; vm_compute; reflexivity.
Qed.

(** One record upserted twice into the empty store. *)
Lemma upsert_record_idempotent_witness :
  let c := clean decimalStringToNumber decimalNumberToString
                 (person (JsString "a@x.com") (JsString "1") (JsNumber 8)) in
  exists a db',
    upsertRequest c = Some a
    /\ store_upsert [] a = Some db'
    /\ store_upsert db' a = Some db'.
Proof.
  intros c. eexists. eexists.
  split; [vm_compute; reflexivity|].
  split; [vm_compute; reflexivity|].
  apply (upsert_record_idempotent c _ []); vm_compute; reflexivity.
Defined.

(** A record with no email and the employee number 1: keyed on the number,
    created with the placeholder email. *)
Lemma upsert_identity_path_witness :
  let c := clean decimalStringToNumber decimalNumberToString
                 (person JsUndefined (JsString "1") (JsNumber 8)) in
  exists a,
    upsertRequest c = Some a
    /\ where_ a = ByEmployeeNum "1"
    /\ e_email (create a) = "1@placeholder.local"
    /\ forall row, e_email (applyUpdate (update a) row) = e_email row.
Proof.
  intros c.
  destruct (upsert_identity_path c) as [a [Ha [_ HN]]]; [vm_compute; reflexivity|].
  destruct (HN eq_refl) as [n [En [_ [Hw [_ [Hc [_ Hu]]]]]]].
  vm_compute in En. injection En as <-.
  exists a. split; [exact Ha|]. split; [exact Hw|]. split; [exact Hc|].
  apply Hu. reflexivity.
Defined.

(** ** Three inputs of one row *)

(** One row with the email a@x.com, both names and the hours "40": 40 is
    more than 24, the record is rejected, and the summary has no entry. *)
Example forty_hours_rejected :
  main decimalStringToNumber decimalNumberToString 100 40 1 false
       [person (JsString "a@x.com") JsUndefined (JsString "40")] []
  = Returned (mkReport 1 0 [mkRejection 0 "hoursWorked per record > 24 is not allowed."]
                       [] 0 [] 0 0 0).
Proof. vm_compute. reflexivity. Qed.

(** One row with both names and 10 hours but no email and no employee
    number: no record is accepted, the rejection cites the missing key, and
    the summary has no entry. *)
Example no_key_rejected :
  main decimalStringToNumber decimalNumberToString 100 40 1 false
       [person JsUndefined JsUndefined (JsNumber 10)] []
  = Returned (mkReport 1 0 [mkRejection 0 "Missing unique key (email or employeeNum)."]
                       [] 0 [] 0 0 0).
Proof. vm_compute. reflexivity. Qed.

(** One row whose hours are the text "abc": the hours become 0, the record
    is accepted, and its entry has a total of 0 and the status FAIL. *)
Example unparsable_hours_zero :
  exists c e,
    accepted decimalStringToNumber decimalNumberToString
             [person (JsString "a@x.com") JsUndefined (JsString "abc")] = [c]
    /\ hoursWorked c = 0%Q
    /\ weeklySummary 40 [c] = [e]
    /\ key e = Some "a@x.com" /\ (total_hours e == 0)%Q /\ status e = FAIL.
Proof.
  eexists. eexists.
  split; [vm_compute; reflexivity|].
  split; [vm_compute; reflexivity|].
  split; [vm_compute; reflexivity|].
  split; [vm_compute; reflexivity|].
  split; vm_compute; reflexivity.
Qed.

(** The forms of [active]: the text is trimmed and lowered before it is
    looked up, and a text that is not a form gives no boolean. *)
Example toBool_forms :
  map (toBool decimalNumberToString)
      [JsString " YES "; JsString "True"; JsString "1"; JsString "y";
       JsString "No"; JsString "FALSE"; JsString "0"; JsString "n";
       JsString "maybe"; JsString ""; JsNull; JsBoolean false; JsNumber 1]
  = [Some true; Some true; Some true; Some true;
     Some false; Some false; Some false; Some false;
     None; None; None; Some false; Some true].
Proof. vm_compute. reflexivity. Qed.

(** Two runs of [emailWeek] from the empty store. *)
Lemma stable_runs_idempotent_witness :
  exists db1 db2,
    runOnce decimalStringToNumber decimalNumberToString 100 40 10 emailWeek [] = Some db1
    /\ runOnce decimalStringToNumber decimalNumberToString 100 40 10 emailWeek db1
       = Some db2
    /\ map e_email db1 = ["a@x.com"; "b@x.com"]
    /\ db2 = db1.
Proof.
  eexists. eexists.
  split; [vm_compute; reflexivity|].
  split; [vm_compute; reflexivity|].
  split; [vm_compute; reflexivity|].
  apply (stable_runs_idempotent decimalStringToNumber decimalNumberToString
           100 40 10 emailWeek []).
  - exact I.
  - apply email_keyed_stable. intros c Hc. vm_compute in Hc.
    destruct Hc as [<-|[<-|[<-|[]]]]; reflexivity.
  - vm_compute. reflexivity.
  - vm_compute. reflexivity.
Defined.

(** Two runs of [emailWeek] on the store a run of [week0] leaves. *)
Lemma email_keyed_runs_idempotent_witness :
  exists db0 db1 db2,
    runOnce decimalStringToNumber decimalNumberToString 100 40 10 week0 [] = Some db0
    /\ runOnce decimalStringToNumber decimalNumberToString 100 40 10 emailWeek db0
       = Some db1
    /\ runOnce decimalStringToNumber decimalNumberToString 100 40 10 emailWeek db1
       = Some db2
    /\ db2 = db1.
Proof.
  eexists. eexists. eexists.
  split; [vm_compute; reflexivity|].
  match goal with
  | |- runOnce _ _ _ _ _ _ ?d = _ /\ _ => pose (db0 := d)
  end.
  split; [vm_compute; reflexivity|].
  split; [vm_compute; reflexivity|].
  apply (email_keyed_runs_idempotent decimalStringToNumber decimalNumberToString
           100 40 10 emailWeek db0).
  - simpl. auto.
  - intros c Hc. vm_compute in Hc.
    destruct Hc as [<-|[<-|[<-|[]]]]; reflexivity.
  - vm_compute. reflexivity.
  - vm_compute. reflexivity.
Defined.

(** ** The further properties on sample inputs *)

(** The sample week: the employee of number 7 has one record, with no
    hours, and is the one entry that is FAIL. *)
Lemma fail_iff_no_hours_witness :
  map (fun e => (key e, status e))
      (weeklySummary 40 (accepted decimalStringToNumber decimalNumberToString sampleWeek))
  = [(Some "a@x.com", PASS); (Some "b@x.com", WARN); (Some "7", FAIL)]
  /\ Forall (fun e =>
               status e = FAIL
               <-> forall c,
                     In c (accepted decimalStringToNumber decimalNumberToString sampleWeek) ->
                     identityKey c = key e -> (hoursWorked c == 0)%Q)
            (weeklySummary 40
               (accepted decimalStringToNumber decimalNumberToString sampleWeek)).
Proof.
  split; [vm_compute; reflexivity|].
  apply Forall_forall. intros e He.
  apply (fail_iff_no_hours decimalStringToNumber decimalNumberToString 40 sampleWeek e He).
Defined.

(** The sample week against a threshold of 0: no entry is WARN, and the
    employee with no hours is FAIL. *)
Lemma summary_nonpositive_threshold_witness :
  map (fun e => (key e, status e))
      (weeklySummary 0 (accepted decimalStringToNumber decimalNumberToString sampleWeek))
  = [(Some "a@x.com", PASS); (Some "b@x.com", PASS); (Some "7", FAIL)]
  /\ Forall (fun e =>
               status e <> WARN
               /\ (status e = FAIL <-> (total_hours e == 0)%Q)
               /\ (status e = PASS <-> (0 < total_hours e)%Q))
            (weeklySummary 0
               (accepted decimalStringToNumber decimalNumberToString sampleWeek)).
Proof.
  split; [vm_compute; reflexivity|].
  apply Forall_forall. intros e He.
  apply (summary_nonpositive_threshold decimalStringToNumber decimalNumberToString
           0 sampleWeek e); [apply Qle_refl|exact He].
Defined.


(** The counts of the run on the sample week: six rows, five of them valid
    and upserted, one rejected, three entries. *)
Lemma report_counts_witness :
  exists rep,
    main decimalStringToNumber decimalNumberToString 2 40 6 false sampleWeek []
    = Returned rep
    /\ loaded rep = 6%nat /\ valid rep = 5%nat /\ success rep = valid rep
    /\ (n_pass rep + n_warn rep + n_fail rep = List.length (entries rep))%nat
    /\ List.length (entries rep) = 3%nat.
Proof.
  destruct (main decimalStringToNumber decimalNumberToString 2 40 6 false sampleWeek [])
    as [rep| |] eqn:E; [|vm_compute in E; discriminate|vm_compute in E; discriminate].
  exists rep. split; [reflexivity|].
  destruct (report_counts decimalStringToNumber decimalNumberToString 2 40 6 false
              sampleWeek [] rep E) as [H1 [_ [H3 [H4 _]]]].
  split; [exact H1|]. split; [|split; [exact H3|split; [exact H4|]]];
    vm_compute in E; injection E as <-; reflexivity.
Defined.

(** Two employees with a blank employee number, in batches of one: the
    first batch is committed, the second is refused, and the run ends with
    the first employee in the store. *)
Lemma aborted_run_keeps_batches_witness :
  exists db',
    main decimalStringToNumber decimalNumberToString 1 40 2 false blankNumberWeek []
    = Aborted db'
    /\ map (fun x => (e_email x, e_employeeNum x)) db' = [("a@x.com", Some "")]
    /\ exists done failing rest,
         toBatches 2 (accepted decimalStringToNumber decimalNumberToString blankNumberWeek) 1
         = Some (done ++ failing :: rest)%list
         /\ transaction [] (map upsertRequest (List.concat done)) = Some db'
         /\ transaction db' (map upsertRequest failing) = None.
Proof.
  destruct (main decimalStringToNumber decimalNumberToString 1 40 2 false blankNumberWeek [])
    as [rep|db'|] eqn:E; [vm_compute in E; discriminate| |vm_compute in E; discriminate].
  exists db'. split; [reflexivity|].
  destruct (aborted_run_keeps_batches decimalStringToNumber decimalNumberToString 1 40 2
              false blankNumberWeek [] db' E)
    as [_ [done [failing [rest [H1 [_ [H3 H4]]]]]]].
  split; [vm_compute in E; injection E as <-; reflexivity|].
  exists done, failing, rest. auto.
Defined.


(** Two employees with a blank employee number: the run does not return. *)
Lemma same_employeeNum_refused_witness :
  transaction []
    (map (fun r => upsertRequest (clean decimalStringToNumber decimalNumberToString r))
         blankNumberWeek)
  = None
  /\ runOnce decimalStringToNumber decimalNumberToString 100 40 2 blankNumberWeek [] = None.
Proof.
  destruct (same_employeeNum_refused decimalStringToNumber decimalNumberToString 100 40
              (person (JsString "a@x.com") (JsString " ") (JsNumber 8))
              (person (JsString "b@x.com") (JsString " ") (JsNumber 8)) "")
    as [H1 H2];
    [reflexivity|reflexivity|reflexivity|reflexivity|discriminate|reflexivity|reflexivity|].
  split; [apply (H1 [])|apply (H2 2%nat [])].
Defined.

(** One accepted record and a batch size that is no positive number. *)
Lemma toBatches_num_other_sizes_witness :
  let cleaned := accepted decimalStringToNumber decimalNumberToString week0 in
  toBatches_num 1 cleaned NaN = Some [[]]
  /\ toBatches_num 1 cleaned (Infinity false) = Some [cleaned]
  /\ toBatches_num 9 cleaned (Infinity true) = None
  /\ toBatches_num 9 cleaned (Finite (- (1 # 2))) = None.
Proof.
  intros cleaned.
  destruct (toBatches_num_other_sizes cleaned) as [H1 [H2 [H3 H4]]];
    [vm_compute; discriminate|].
  split; [apply (H1 0%nat [])|]. split; [apply H2|]. split; [apply H3|].
  apply H4. vm_compute. discriminate.
Defined.

(** Five elements in batches of two: three batches. *)
Lemma toBatches_count_witness :
  exists batches,
    toBatches 5 [1; 2; 3; 4; 5]%nat 2 = Some batches
    /\ Z.of_nat (List.length batches) = 3%Z.
Proof.
  destruct (toBatches_count [1; 2; 3; 4; 5]%nat 2 5) as [bs [H1 [H2 _]]];
    [lia|simpl; lia|].
  exists bs. split; [exact H1|]. rewrite H2. reflexivity.
Defined.

(** The profile of two rows, and the text of the summary of the sample
    week. *)
Example profile_two_rows :
  profile [[("email", JsString "a@x.com"); ("hoursWorked", JsNumber 8)];
           [("firstName", JsString "A"); ("email", JsNull); ("extra", JsBoolean true)]]
  = mkProfile 2 ["email"; "hoursWorked"; "firstName"; "extra"]
              [[("email", JsString "a@x.com"); ("hoursWorked", JsNumber 8)];
               [("firstName", JsString "A"); ("email", JsNull); ("extra", JsBoolean true)]].
Proof. reflexivity. Qed.

Example csv_sampleWeek :
  csv decimalNumberToString
      (weeklySummary 40 (accepted decimalStringToNumber decimalNumberToString sampleWeek))
  = join LF ["employeeKey,total_hours,expected_hours,delta,status";
             "a@x.com,40,40,0,PASS";
             "b@x.com,39.99,40,-0.01,WARN";
             "7,0,40,-40,FAIL"].
Proof. vm_compute. reflexivity. Qed.

(** ** The claims on doubles, on sample inputs *)



(** C2 on a row whose every field needs cleaning, and on the hours 1e308. *)
Lemma clean_defaults_overflow_witness :
  IEEE.clean IEEE.plainNumber IEEE.untidy
  = IEEE.mkCleaned (Some "a@x.com") (Some "7") (Some "Ann") (Some "Lee") None "Staff"
                   (IEEE.ofFraction 746 100) true
  /\ IEEE.Number_isFinite IEEE.d1e308 = true
  /\ IEEE.hoursWorked
       (IEEE.clean IEEE.plainNumber (IEEE.person "a@x.com" (IEEE.HoursNumber IEEE.d1e308)))
     = S754_infinity false.
Proof.
  destruct (clean_defaults_overflow
              IEEE.plainNumber (IEEE.person "a@x.com" (IEEE.HoursNumber IEEE.d1e308)))
    as [_ [_ [_ [_ [_ [_ [_ [_ [_ [_ [_ [_ [H U]]]]]]]]]]]]].
  destruct (H eq_refl) as [H1 [H2 _]].
  split; [exact U|]. split; [exact H1|exact H2].
Defined.

(** The hours "24" and "24.01" of a row: the first is kept and accepted, the
    second is kept and rejected. *)
Lemma hours_two_decimals_witness :
  let c := IEEE.clean IEEE.plainNumber (IEEE.person "a@x.com" (IEEE.HoursString "24")) in
  let c' := IEEE.clean IEEE.plainNumber (IEEE.person "a@x.com" (IEEE.HoursString "24.01")) in
  IEEE.hoursWorked c = IEEE.ofZ 24
  /\ IEEE.validate c = []
  /\ IEEE.hoursWorked c' = IEEE.ofFraction 2401 100
  /\ In "hoursWorked per record > 24 is not allowed." (IEEE.validate c').
Proof.
  intros c c'.
  destruct (hours_two_decimals
              IEEE.plainNumber (IEEE.person "a@x.com" (IEEE.HoursString "24")) 2400)
    as [H1 _]; [lia|reflexivity|vm_compute; reflexivity|].
  destruct (hours_two_decimals
              IEEE.plainNumber (IEEE.person "a@x.com" (IEEE.HoursString "24.01")) 2401)
    as [H2 [_ [H3 _]]]; [lia|reflexivity|vm_compute; reflexivity|].
  split; [unfold c; rewrite H1; vm_compute; reflexivity|].
  split; [vm_compute; reflexivity|].
  split; [exact H2|]. apply H3. lia.
Defined.
